(** * Verification development for gaianet-chatbot/backend/app.py

    Shallow embedding of the request-processing core of the GaiaNet chat
    backend: the Python [re] patterns used by [RequestValidator] and
    [DataPrivacyFilter], request validation, the in-memory
    [SecurityMonitor], and the two chat endpoints.

    Text is modelled as a list of ASCII characters; Python's Unicode
    character classes are restricted to their ASCII members. *)

From Stdlib Require Import Ascii String ZArith QArith Lia Sorted.
From stdpp Require Import base gmap strings list.

Local Open Scope list_scope.
#[local] Set Warnings "-register-all -abstract-large-number".

(** ** Character classes of Python's [re] module (str patterns, ASCII part) *)

Definition code (c : ascii) : nat := nat_of_ascii c.

Definition in_range (lo hi : nat) (c : ascii) : bool :=
  (lo <=? code c) && (code c <=? hi).

(** [\d] *)
Definition is_digit (c : ascii) : bool := in_range 48 57 c.
Definition is_upper (c : ascii) : bool := in_range 65 90 c.
Definition is_lower (c : ascii) : bool := in_range 97 122 c.
Definition is_alnum (c : ascii) : bool := is_digit c || is_upper c || is_lower c.
(** [\w] *)
Definition is_word (c : ascii) : bool := is_alnum c || (code c =? 95).
(** [\s] and [str.isspace]: \t \n \v \f \r, the separators \x1c-\x1f, space *)
Definition is_space (c : ascii) : bool :=
  in_range 9 13 c || in_range 28 32 c.

Definition is_char (ch : ascii) (c : ascii) : bool := Ascii.eqb c ch.

Definition one_of (chars : string) (c : ascii) : bool :=
  existsb (is_char c) (list_ascii_of_string chars).

(** ASCII case folding used by [re.IGNORECASE] *)
Definition lower (c : ascii) : ascii :=
  if is_upper c then ascii_of_nat (code c + 32) else c.

(** ** A backtracking matcher for the regular expressions of the source *)

Inductive rx :=
| REps
| RCls (p : ascii -> bool)
    (** one character of a class *)
| RSeq (r1 r2 : rx)
| ROpt (r : rx)
    (** [r?], greedy *)
| RRun (p : ascii -> bool) (greedy : bool) (lo : nat) (hi : option nat)
    (** [p{lo,hi}] on a character class, greedy or lazy ([*?]) *)
| RWordB
    (** [\b] *)
| RDollar.
    (** [$]: end of the text, or just before a final newline *)

Definition rcat (rs : list rx) : rx := fold_right RSeq REps rs.

(** a literal, matched exactly *)
Definition lit (s : string) : rx :=
  rcat (map (fun ch => RCls (is_char ch)) (list_ascii_of_string s)).

(** a literal under [re.IGNORECASE] *)
Definition lit_ci (s : string) : rx :=
  rcat (map (fun ch => RCls (fun c => Ascii.eqb (lower c) (lower ch)))
            (list_ascii_of_string s)).

Fixpoint run_len (p : ascii -> bool) (l : list ascii) : nat :=
  match l with
  | c :: t => if p c then S (run_len p t) else 0
  | [] => 0
  end.

Fixpoint first_ok (f : nat -> option nat) (l : list nat) : option nat :=
  match l with
  | [] => None
  | x :: t => match f x with Some e => Some e | None => first_ok f t end
  end.

Definition word_at (s : list ascii) (i : nat) : bool :=
  match s !! i with Some c => is_word c | None => false end.

Definition word_boundary (s : list ascii) (i : nat) : bool :=
  let before := match i with 0 => false | S j => word_at s j end in
  xorb before (word_at s i).

(** [mt s r i k]: match [r] against [s] from position [i]; [k] is the
    continuation that matches the rest of the pattern from the end
    position.  Alternatives are tried in the order of Python's engine
    (greedy: longest first, lazy: shortest first), so the first success
    is the match Python reports. *)
Fixpoint mt (s : list ascii) (r : rx) (i : nat) (k : nat -> option nat)
  : option nat :=
  match r with
  | REps => k i
  | RCls p =>
      match s !! i with
      | Some c => if p c then k (S i) else None
      | None => None
      end
  | RSeq r1 r2 => mt s r1 i (fun j => mt s r2 j k)
  | ROpt r1 =>
      match mt s r1 i k with
      | Some e => Some e
      | None => k i
      end
  | RRun p g lo hi =>
      let n0 := run_len p (drop i s) in
      let n := match hi with Some h => Nat.min h n0 | None => n0 end in
      if n <? lo then None
      else
        let cs := seq lo (S (n - lo)) in
        first_ok (fun c => k (i + c)) (if g then rev cs else cs)
  | RWordB => if word_boundary s i then k i else None
  | RDollar =>
      if (i =? length s) || ((S i =? length s) && bool_decide (s !! i = Some "010"%char))
      then k i else None
  end.

Definition match_at (s : list ascii) (r : rx) (i : nat) : option nat :=
  mt s r i (fun j => Some j).

(** [re.search] from position [i]: the leftmost position with a match *)
Fixpoint search_from (s : list ascii) (r : rx) (i fuel : nat)
  : option (nat * nat) :=
  match match_at s r i with
  | Some e => Some (i, e)
  | None =>
      match fuel with
      | 0 => None
      | S f => search_from s r (S i) f
      end
  end.

Definition search (s : list ascii) (r : rx) (i : nat) : option (nat * nat) :=
  search_from s r i (length s - i).

(** [re.finditer]: successive non-overlapping matches, as (start, end) *)
Fixpoint finditer_from (s : list ascii) (r : rx) (i fuel : nat)
  : list (nat * nat) :=
  match fuel with
  | 0 => []
  | S f =>
      match search s r i with
      | Some (b, e) =>
          (b, e) :: finditer_from s r (if e =? b then S e else e) f
      | None => []
      end
  end.

Definition finditer (s : list ascii) (r : rx) : list (nat * nat) :=
  finditer_from s r 0 (S (length s)).

Definition slice (s : list ascii) (b e : nat) : list ascii :=
  take (e - b) (drop b s).

(** [re.sub(pattern, repl, s)] with a literal replacement *)
Fixpoint sub_from (s : list ascii) (r : rx) (repl : list ascii) (i fuel : nat)
  : list ascii :=
  match fuel with
  | 0 => drop i s
  | S f =>
      match search s r i with
      | Some (b, e) =>
          if e =? b
          then slice s i b ++ repl ++ slice s b (S b) ++ sub_from s r repl (S b) f
          else slice s i b ++ repl ++ sub_from s r repl e f
      | None => drop i s
      end
  end.

Definition re_sub (r : rx) (repl : list ascii) (s : list ascii) : list ascii :=
  sub_from s r repl 0 (S (length s)).

(** ** RequestValidator.sanitize_content *)

Module Sanitizer.

(** [r"<script[^>]*>.*?</script>"] with [re.IGNORECASE | re.DOTALL] *)
Definition script_re : rx :=
  rcat [ lit_ci "<script";
         RRun (fun c => negb (is_char ">" c)) true 0 None;
         RCls (is_char ">");
         RRun (fun _ => true) false 0 None;
         lit_ci "</script>" ].

(** [r"javascript:"] with [re.IGNORECASE] *)
Definition javascript_re : rx := lit_ci "javascript:".

(** the characters kept by the class of the third substitution: word
    characters, whitespace, and . , ! ? - ( ) ' and the double quote
    (character 34) *)
Definition allowed (c : ascii) : bool :=
  is_word c || is_space c || one_of ".,!?-()'" c || (code c =? 34).

(** the third [re.sub] replaces every maximal run of characters outside
    [allowed] by the empty string, i.e. deletes them *)
Definition drop_special (s : list ascii) : list ascii := filter allowed s.

Fixpoint lstrip (s : list ascii) : list ascii :=
  match s with
  | c :: t => if is_space c then lstrip t else s
  | [] => []
  end.

(** [str.strip()] *)
Definition strip (s : list ascii) : list ascii := rev (lstrip (rev (lstrip s))).

Definition sanitize_content (content : list ascii) : list ascii :=
  let content := re_sub script_re [] content in
  let content := re_sub javascript_re [] content in
  let content := drop_special content in
  strip content.

End Sanitizer.

(** ** DataPrivacyFilter *)

Module Privacy.

Definition sep (c : ascii) : bool := is_char "-" c || is_space c.
Definition d (n : nat) : rx := RRun is_digit true n (Some n).

(** [r"\b(?:\d{4}[-\s]?){3}\d{4}\b"] *)
Definition cc_group : rx := RSeq (d 4) (ROpt (RCls sep)).
Definition credit_card_re : rx :=
  rcat [RWordB; cc_group; cc_group; cc_group; d 4; RWordB].

(** [r"\b\d{3}-\d{2}-\d{4}\b"] *)
Definition ssn_re : rx :=
  rcat [RWordB; d 3; lit "-"; d 2; lit "-"; d 4; RWordB].

(** [r"\b[A-Za-z0-9._%+-]+@[A-Za-z0-9.-]+\.[A-Z|a-z]{2,}\b"] *)
Definition email_re : rx :=
  rcat [ RWordB;
         RRun (fun c => is_alnum c || one_of "._%+-" c) true 1 None;
         lit "@";
         RRun (fun c => is_alnum c || one_of ".-" c) true 1 None;
         lit ".";
         RRun (fun c => is_upper c || is_char "|" c || is_lower c) true 2 None;
         RWordB ].

(** [r"\b\d{3}-\d{3}-\d{4}\b"] *)
Definition phone_re : rx :=
  rcat [RWordB; d 3; lit "-"; d 3; lit "-"; d 4; RWordB].

(** [r"[A-Za-z0-9]{32,}"] *)
Definition api_key_re : rx := RRun is_alnum true 32 None.

(** [r"(?i)password[:\s=]+[^\s]+"] *)
Definition password_re : rx :=
  rcat [ lit_ci "password";
         RRun (fun c => is_char ":" c || is_space c || is_char "=" c) true 1 None;
         RRun (fun c => negb (is_space c)) true 1 None ].

(** [r"(?i)token[:\s=]+[^\s]+"] *)
Definition token_re : rx :=
  rcat [ lit_ci "token";
         RRun (fun c => is_char ":" c || is_space c || is_char "=" c) true 1 None;
         RRun (fun c => negb (is_space c)) true 1 None ].

(** [self.patterns], in the dict's insertion order *)
Definition patterns : list (string * rx) :=
  [ ("credit_card", credit_card_re);
    ("ssn", ssn_re);
    ("email", email_re);
    ("phone", phone_re);
    ("api_key", api_key_re);
    ("password", password_re);
    ("token", token_re) ].

(** [detect_sensitive_data]: one (kind, matched text) per match *)
Definition detect_sensitive_data (text : list ascii) : list (string * list ascii) :=
  concat (map (fun '(data_type, pattern) =>
                 map (fun '(b, e) => (data_type, slice text b e))
                     (finditer text pattern))
              patterns).

Definition upper_string (s : string) : string :=
  string_of_list_ascii
    (map (fun c => if is_lower c then ascii_of_nat (code c - 32) else c)
         (list_ascii_of_string s)).

(** [f"[REDACTED_{data_type.upper()}]"] *)
Definition placeholder (data_type : string) : list ascii :=
  list_ascii_of_string ("[REDACTED_" ++ upper_string data_type ++ "]")%string.

Definition redact_with (pats : list (string * rx)) (text : list ascii) : list ascii :=
  fold_left (fun redacted '(data_type, pattern) =>
               re_sub pattern (placeholder data_type) redacted)
            pats text.

(** [redact_sensitive_data] *)
Definition redact_sensitive_data (text : list ascii) : list ascii :=
  redact_with patterns text.

(** [validate_request_privacy]: the source formats each violation as
    [f"Message {i}: Found {kinds}"]; we keep the index and the kinds. *)
Definition violation_of (i : nat) (content : list ascii) : list (nat * list string) :=
  match detect_sensitive_data content with
  | [] => []
  | sd => [(i, map fst sd)]
  end.

Definition validate_request_privacy (contents : list (list ascii)) : list (nat * list string) :=
  concat (imap violation_of contents).

End Privacy.

Definition T (s : string) : list ascii := list_ascii_of_string s.


(** ** RequestValidator.validate_chat_request *)

(** Python floats: finite values (as rationals), the infinities and NaN.
    [json.loads] accepts the literals [NaN], [Infinity] and [-Infinity]. *)
Inductive pyfloat :=
| FNum (q : Q)
| FInf (neg : bool)
| FNaN.

(** JSON values as Flask's [request.get_json()] produces them *)
Inductive jval :=
| JNone
| JBool (b : bool)
| JInt (z : Z)
| JFloat (f : pyfloat)
| JStr (s : list ascii)
| JList (l : list jval)
| JDict (kv : list (string * jval)).

(** a Python dict as an association list without duplicate keys *)
Fixpoint dget (kv : list (string * jval)) (k : string) : option jval :=
  match kv with
  | [] => None
  | (k', v) :: t => if String.eqb k' k then Some v else dget t k
  end.

Definition dget_or (kv : list (string * jval)) (k : string) (dflt : jval) : jval :=
  match dget kv k with Some v => v | None => dflt end.

Module Validator.

(** the exceptions [validate_chat_request] raises *)
Inductive verr :=
| InvalidModel          (** ValueError("Invalid model name format") *)
| InvalidMessages       (** ValueError("Invalid messages format or too many messages ...") *)
| NotDict               (** ValueError("Message must be a dictionary") *)
| InvalidRole (role : jval)  (** ValueError(f"Invalid role: {role}") *)
| TooLong               (** ValueError(f"Message too long ...") *)
| InvalidMaxTokens      (** ValueError("Invalid max_tokens value") *)
| InvalidTemperature    (** ValueError("Invalid temperature value") *)
| TypeErr.              (** TypeError raised by [re] or [len] or hashing *)

Record validated := {
  v_model : list ascii;
  v_messages : list (list ascii * list ascii);   (** (role, sanitized content) *)
  v_max_tokens : option jval;
  v_temperature : option jval }.

Definition model_class (c : ascii) : bool := is_alnum c || one_of "_-" c.

(** [r"^[a-zA-Z0-9_-]+$"] under [re.match] (anchored at 0) *)
Definition model_re : rx := rcat [RRun model_class true 1 None; RDollar].

Definition allowed_roles : list (list ascii) := [T "user"; T "assistant"; T "system"].

Definition max_messages : nat := 100.

(** [int(os.getenv("MAX_MESSAGE_LENGTH", "10000"))] *)
Definition default_max_message_length : nat := 10000.

(** [len(x)] *)
Definition py_len (v : jval) : option nat :=
  match v with
  | JStr s => Some (length s)
  | JList l => Some (length l)
  | JDict kv => Some (length kv)
  | _ => None
  end.

(** the body of the [for msg in messages] loop *)
Definition validate_message (max_len : nat) (msg : jval)
  : verr + (list ascii * list ascii) :=
  match msg with
  | JDict kv =>
      let role := dget_or kv "role" JNone in
      match role with
      | JList _ | JDict _ => inl TypeErr
      | JStr r =>
          if bool_decide (r ∈ allowed_roles) then
            let content := dget_or kv "content" (JStr []) in
            match py_len content with
            | None => inl TypeErr
            | Some n =>
                if max_len <? n then inl TooLong
                else match content with
                     | JStr c => inr (r, Sanitizer.sanitize_content c)
                     | _ => inl TypeErr
                     end
            end
          else inl (InvalidRole role)
      | _ => inl (InvalidRole role)
      end
  | _ => inl NotDict
  end.

Fixpoint validate_messages (max_len : nat) (msgs : list jval)
  : verr + list (list ascii * list ascii) :=
  match msgs with
  | [] => inr []
  | m :: t =>
      match validate_message max_len m with
      | inl e => inl e
      | inr vm =>
          match validate_messages max_len t with
          | inl e => inl e
          | inr vms => inr (vm :: vms)
          end
      end
  end.

Definition max_tokens_ok (v : jval) : bool :=
  match v with
  | JInt z => (1 <=? z)%Z && (z <=? 4096)%Z
  | JBool b => b                                (** isinstance(True, int) *)
  | _ => false
  end.

Definition temperature_ok (v : jval) : bool :=
  match v with
  | JInt z => (0 <=? z)%Z && (z <=? 2)%Z
  | JBool _ => true
  | JFloat (FNum q) => Qle_bool 0 q && Qle_bool q 2
  | JFloat (FInf neg) => false              (** -inf < 0, inf > 2 *)
  | JFloat FNaN => true                     (** NaN < 0 and NaN > 2 are both False *)
  | _ => false
  end.

Definition validate_chat_request (max_len : nat) (request_data : list (string * jval))
  : verr + validated :=
  match dget_or request_data "model" (JStr []) with
  | JStr model =>
      if negb (bool_decide (is_Some (match_at model model_re 0))) then inl InvalidModel
      else
        match dget_or request_data "messages" (JList []) with
        | JList messages =>
            if max_messages <? length messages then inl InvalidMessages
            else
              match validate_messages max_len messages with
              | inl e => inl e
              | inr vms =>
                  match dget request_data "max_tokens" with
                  | Some mt => if negb (max_tokens_ok mt) then inl InvalidMaxTokens
                               else
                    match dget request_data "temperature" with
                    | Some tp => if negb (temperature_ok tp) then inl InvalidTemperature
                                 else inr (Build_validated model vms (Some mt) (Some tp))
                    | None => inr (Build_validated model vms (Some mt) None)
                    end
                  | None =>
                    match dget request_data "temperature" with
                    | Some tp => if negb (temperature_ok tp) then inl InvalidTemperature
                                 else inr (Build_validated model vms None (Some tp))
                    | None => inr (Build_validated model vms None None)
                    end
                  end
              end
        | _ => inl InvalidMessages
        end
  | _ => inl TypeErr
  end.

End Validator.

(** ** SecurityMonitor *)

Module Monitor.

Record state := {
  rate_limits : gmap string (list Z);   (** defaultdict(list) of timestamps *)
  blocked_ips : gset string }.

Definition fresh : state := {| rate_limits := ∅; blocked_ips := ∅ |}.

(** [int(os.getenv("RATE_LIMIT_PER_HOUR", "100"))]: unset, an integer,
    or a value on which [int()] raises ValueError *)
Inductive env_int := EnvUnset | EnvInt (z : Z) | EnvInvalid.

Definition env_limit (env : env_int) : option Z :=
  match env with
  | EnvUnset => Some 100%Z
  | EnvInt z => Some z
  | EnvInvalid => None
  end.

(** [is_blocked] *)
Definition is_blocked (st : state) (ip : string) : bool :=
  bool_decide (ip ∈ blocked_ips st).

(** [block_ip]; the warning it logs has no effect on the state *)
Definition block_ip (st : state) (ip : string) : state :=
  {| rate_limits := rate_limits st; blocked_ips := {[ip]} ∪ blocked_ips st |}.

(** the part of [check_rate_limit] after the limit is fixed; timestamps
    are [time.time()] readings, taken here as integers *)
Definition check_with_limit (st : state) (ip : string) (limit window now : Z)
  : bool * state :=
  let recent := filter (fun req_time => bool_decide (now - req_time < window)%Z)
                       (default [] (rate_limits st !! ip)) in
  let st1 := {| rate_limits := <[ip := recent]> (rate_limits st);
                blocked_ips := blocked_ips st |} in
  if bool_decide (limit <= Z.of_nat (length recent))%Z then
    (false, block_ip st1 ip)
  else
    (true, {| rate_limits := <[ip := recent ++ [now]]> (rate_limits st1);
              blocked_ips := blocked_ips st1 |}).

(** [check_rate_limit(ip, limit, window)] at time [now]; [None] when
    [int()] raises on the environment value *)
Definition check_rate_limit (env : env_int) (st : state) (ip : string)
  (limit window now : Z) : option (bool * state) :=
  let limit := if bool_decide (limit = 100%Z) then env_limit env else Some limit in
  match limit with
  | Some l => Some (check_with_limit st ip l window now)
  | None => None
  end.

(** the operations of the monitor, as a process performs them *)
Inductive op :=
| OpCheck (ip : string) (limit window now : Z)
| OpBlock (ip : string) (reason : string)
| OpIsBlocked (ip : string).

Definition step (env : env_int) (st : state) (o : op) : state :=
  match o with
  | OpCheck ip limit window now =>
      match check_rate_limit env st ip limit window now with
      | Some (_, st') => st'
      | None => st          (** the exception leaves the state unchanged *)
      end
  | OpBlock ip _ => block_ip st ip
  | OpIsBlocked _ => st
  end.

Definition run (env : env_int) (st : state) (ops : list op) : state :=
  fold_left (step env) ops st.

(** successive [check_rate_limit] calls of one client at the given times *)
Fixpoint run_checks (env : env_int) (st : state) (ip : string) (limit window : Z)
  (times : list Z) : list bool * state :=
  match times with
  | [] => ([], st)
  | now :: rest =>
      match check_rate_limit env st ip limit window now with
      | Some (ok, st') =>
          let '(oks, st'') := run_checks env st' ip limit window rest in
          (ok :: oks, st'')
      | None => ([], st)
      end
  end.

End Monitor.

(** ** SecureGaiaClient and the two chat endpoints *)

Module Orchestrator.
Import Validator.

(** the openai exceptions the client can raise; the payload is [str(e)] *)
Inductive upstream_exc :=
| BadRequestError (msg : list ascii)
| NotFoundError (msg : list ascii)
| InternalServerError (msg : list ascii)
| OtherError (msg : list ascii).

Definition exc_text (e : upstream_exc) : list ascii :=
  match e with
  | BadRequestError m | NotFoundError m | InternalServerError m | OtherError m => m
  end.

(** a call of [client.chat.completions.create] *)
Record up_req := {
  u_model : list ascii;
  u_messages : list (list ascii * list ascii);
  u_kwargs : list (string * jval);
  u_stream : bool }.

(** a non-streamed completion: first choice's content and [response.model] *)
Record completion := { c_content : option (list ascii); c_model : list ascii }.

(** a streamed completion: the delta contents of the chunks, and the
    exception raised while iterating, if any *)
Record stream := { s_chunks : list (option (list ascii)); s_error : option upstream_exc }.

Record config := {
  configured : bool;                        (** gaia_client is not None *)
  client_model : list ascii;                (** GAIANET_MODEL, default "default" *)
  privacy_env : option (list ascii);        (** ENABLE_DATA_PRIVACY_FILTER *)
  max_len : nat }.                          (** MAX_MESSAGE_LENGTH *)

(** [os.getenv("ENABLE_DATA_PRIVACY_FILTER", "true").lower() == "true"] *)
Definition privacy_enabled (cfg : config) : bool :=
  match privacy_env cfg with
  | None => true
  | Some v => bool_decide (map lower v = T "true")
  end.

(** Python exceptions crossing the handlers *)
Inductive pyexc :=
| PValueError (msg : list ascii)
| PRuntimeError (msg : list ascii).

(** [SecureGaiaClient.chat_completion]: the upstream failure mapping *)
Definition client_chat_completion (cfg : config)
  (upstream : up_req -> upstream_exc + completion)
  (messages : list (list ascii * list ascii)) (model : list ascii)
  (kwargs : list (string * jval)) : up_req * (pyexc + completion) :=
  let rq := {| u_model := if bool_decide (model = []) then client_model cfg else model;
               u_messages := messages; u_kwargs := kwargs; u_stream := false |} in
  (rq, match upstream rq with
       | inr resp => inr resp
       | inl (BadRequestError _) => inl (PValueError (T "Invalid request format"))
       | inl (NotFoundError _) => inl (PValueError (T "Model not available"))
       | inl (InternalServerError _) => inl (PRuntimeError (T "Service temporarily unavailable"))
       | inl (OtherError _) => inl (PRuntimeError (T "Request failed"))
       end).

(** the [error] text of a response or event: a literal, or [str(e)] of a
    validation error *)
Inductive errmsg := MsgText (m : list ascii) | MsgValidation (e : verr).

Inductive body :=
| BError (m : errmsg)
| BResponse (response : list ascii) (model : list ascii).   (** timestamp omitted *)

Record http := { status : nat; body_of : body }.

Definition err (code : nat) (m : string) : http :=
  {| status := code; body_of := BError (MsgText (T m)) |}.

Definition truthy (v : jval) : bool :=
  match v with
  | JNone | JBool false | JStr [] | JList [] | JDict [] => false
  | JInt z => negb (Z.eqb z 0)
  | JFloat (FNum q) => negb (Qeq_bool q 0)
  | _ => true
  end.

Definition kwargs_of (v : validated) : list (string * jval) :=
  match v_max_tokens v with Some m => [("max_tokens", m)] | None => [] end ++
  match v_temperature v with Some t => [("temperature", t)] | None => [] end.

(** [chat_completion], the POST /api/chat handler; returns the upstream
    calls it made and the response.  A truthy JSON body that is not an
    object makes the [in] test or [data.get] raise, which the handler
    turns into "Internal server error". *)
Definition chat_completion (cfg : config)
  (upstream : up_req -> upstream_exc + completion) (data : option jval)
  : list up_req * http :=
  if negb (configured cfg) then ([], err 500 "GaiaNet not configured") else
  match data with
  | None => ([], err 400 "Invalid JSON")
  | Some d =>
    if negb (truthy d) then ([], err 400 "Invalid JSON") else
    match d with
    | JDict kv =>
      let model := dget_or kv "model" (JStr (client_model cfg)) in
      let messages :=
        match dget kv "message" with
        | Some m => JList [JDict [("role", JStr (T "user")); ("content", m)]]
        | None => dget_or kv "messages" (JList [])
        end in
      let chat_request :=
        [("model", model); ("messages", messages)] ++
        match dget kv "max_tokens" with Some m => [("max_tokens", m)] | None => [] end ++
        match dget kv "temperature" with Some t => [("temperature", t)] | None => [] end in
      match validate_chat_request (max_len cfg) chat_request with
      | inl TypeErr => ([], err 500 "Internal server error")
      | inl e => ([], {| status := 400; body_of := BError (MsgValidation e) |})
      | inr vr =>
        if privacy_enabled cfg &&
           negb (bool_decide (Privacy.validate_request_privacy (map snd (v_messages vr)) = []))
        then ([], err 400 "Privacy violation detected")
        else
          let '(rq, res) := client_chat_completion cfg upstream (v_messages vr)
                              (v_model vr) (kwargs_of vr) in
          match res with
          | inl (PValueError m) => ([rq], {| status := 400; body_of := BError (MsgText m) |})
          | inl (PRuntimeError m) => ([rq], {| status := 500; body_of := BError (MsgText m) |})
          | inr resp =>
            let content := default [] (c_content resp) in
            let content := if privacy_enabled cfg
                           then Privacy.redact_sensitive_data content else content in
            ([rq], {| status := 200; body_of := BResponse content (c_model resp) |})
          end
      end
    | _ => ([], err 500 "Internal server error")
    end
  end.

(** the server-sent events of /api/chat/stream *)
Inductive event := EvContent (c : list ascii) | EvDone | EvError (m : errmsg).

Definition emit_chunks (cfg : config) (chunks : list (option (list ascii))) : list event :=
  omap (fun ch => match ch with
                  | Some c => Some (EvContent (if privacy_enabled cfg
                                               then Privacy.redact_sensitive_data c else c))
                  | None => None
                  end) chunks.

(** the query string of GET /api/chat/stream *)
Record query := { q_message : option (list ascii); q_model : option (list ascii) }.

(** [str(e)] of the RuntimeError that Flask's [request] proxy raises when
    no request context is active *)
Definition request_context_error : list ascii :=
  T "Working outside of request context.

This typically means that you attempted to use functionality that needed
an active HTTP request. Consult the documentation on testing for
information about how to avoid this problem.".

(** [chat_stream]'s generator [generate()], run to the end; returns the
    upstream calls and the events.  [args] is the request context seen by
    the generator's first statement, [request.args.get("message")]: [None]
    when no request context is active, where the proxy raises and the
    [except Exception] clause yields [str(e)]. *)
Definition generate (cfg : config)
  (upstream : up_req -> upstream_exc + stream) (args : option query)
  : list up_req * list event :=
  match args with
  | None => ([], [EvError (MsgText request_context_error)])
  | Some q =>
  let model := match q_model q with
               | Some m => m
               | None => if configured cfg then client_model cfg else T "default"
               end in
  match q_message q with
  | None | Some [] => ([], [EvError (MsgText (T "Message parameter required"))])
  | Some msg =>
    if negb (configured cfg) then ([], [EvError (MsgText (T "GaiaNet not configured"))]) else
    let chat_request :=
      [("model", JStr model);
       ("messages", JList [JDict [("role", JStr (T "user")); ("content", JStr msg)]])] in
    match validate_chat_request (max_len cfg) chat_request with
    | inl e => ([], [EvError (MsgValidation e)])
    | inr vr =>
      let rq := {| u_model := v_model vr; u_messages := v_messages vr;
                   u_kwargs := []; u_stream := true |} in
      match upstream rq with
      | inl e => ([rq], [EvError (MsgText (exc_text e))])
      | inr st =>
        ([rq], emit_chunks cfg (s_chunks st) ++
               match s_error st with
               | Some e => [EvError (MsgText (exc_text e))]
               | None => [EvDone]
               end)
      end
    end
  end
  end.

(** the GET /api/chat/stream view: [return Response(generate(), ...)].
    The generator is not wrapped in [stream_with_context], so its body
    first runs when the WSGI server iterates the response, after
    [Flask.wsgi_app] has popped the request context: the query string
    [q] of the request is out of the generator's reach. *)
Definition chat_stream (cfg : config)
  (upstream : up_req -> upstream_exc + stream) (q : query)
  : list up_req * list event :=
  generate cfg upstream None.

End Orchestrator.

(** ** The [before_request] hook and /api/health *)

Module Gate.
Import Monitor.

(** [request.environ.get("HTTP_X_REAL_IP", request.remote_addr)]: the
    X-Real-IP request header when the request carries one *)
Definition client_ip (x_real_ip : option string) (remote_addr : string) : string :=
  match x_real_ip with Some h => h | None => remote_addr end.

Inductive outcome :=
| Proceed                            (** the hook returns None: the view runs *)
| Refuse (code : nat) (msg : string) (** [jsonify({"error": msg}), code] *)
| Crash.                             (** [int()] raised in the hook: Flask answers 500 *)

(** [security_checks] for a request arriving at time [now] *)
Definition security_checks (env : env_int) (st : state) (x_real_ip : option string)
  (remote_addr : string) (now : Z) : outcome * state :=
  let ip := client_ip x_real_ip remote_addr in
  if is_blocked st ip then (Refuse 403 "Access denied", st)
  else match check_rate_limit env st ip 100 3600 now with
       | None => (Crash, st)
       | Some (false, st') => (Refuse 429 "Rate limit exceeded", st')
       | Some (true, st') => (Proceed, st')
       end.

(** a request as the hook sees it: X-Real-IP header, remote address, time *)
Record request := { x_real_ip : option string; remote_addr : string; at_time : Z }.

(** the hook over successive requests *)
Fixpoint serve (env : env_int) (st : state) (reqs : list request) : list outcome * state :=
  match reqs with
  | [] => ([], st)
  | r :: rest =>
      let '(o, st1) := security_checks env st (x_real_ip r) (remote_addr r) (at_time r) in
      let '(os, st2) := serve env st1 rest in
      (o :: os, st2)
  end.

(** the address the hook keys a request by *)
Definition req_ip (r : request) : string := client_ip (x_real_ip r) (remote_addr r).

End Gate.

Module Health.
Import Orchestrator.

(** the test request of [health_check] *)
Definition test_request (cfg : config) : up_req :=
  {| u_model := client_model cfg; u_messages := [(T "user", T "test")];
     u_kwargs := [("max_tokens", JInt 1)]; u_stream := false |}.

(** [health_check]: the upstream calls and the JSON object returned (with
    status 200); the [timestamp] field is omitted *)
Definition health_check (cfg : config) (upstream : up_req -> upstream_exc + completion)
  : list up_req * list (string * jval) :=
  let status := [("status", JStr (T "healthy")); ("version", JStr (T "1.0.0"))] in
  if configured cfg then
    let rq := test_request cfg in
    match upstream rq with
    | inr _ => ([rq], status ++ [("gaianet_status", JStr (T "connected"))])
    | inl e => ([rq], status ++ [("gaianet_status", JStr (T "error"));
                                 ("gaianet_error", JStr (exc_text e))])
    end
  else ([], status ++ [("gaianet_status", JStr (T "not_configured"))]).

End Health.

(** ** The Streamlit front end (ui.py): its calls of the backend *)

Module UI.

(** an HTTP response as [requests] returns it; [response.json()] is taken
    to decode to [json_body] *)
Record response := {
  status_code : nat;
  content_type : option (list ascii);
  json_body : jval }.

(** the result of one [requests.post] / [requests.get] *)
Inductive transport :=
| TTimeout                          (** requests.exceptions.Timeout *)
| TConnectionError                  (** requests.exceptions.ConnectionError *)
| TRequestError (msg : list ascii)  (** another RequestException, [str(e)] *)
| TResponse (r : response).

Definition MAX_RETRIES : nat := 3.

Definition err_dict (kind msg : string) : jval :=
  JDict [("error", JStr (T kind)); ("message", JStr (T msg))].

(** [handle_api_response]; [None] when [.get] is called on a decoded JSON
    value that is not an object (AttributeError) *)
Definition handle_api_response (r : response) : option jval :=
  if status_code r =? 200 then Some (json_body r)
  else if status_code r =? 429 then Some (err_dict "rate_limit" "Rate limit exceeded")
  else
    let error_data :=
      if bool_decide (prefix (T "application/json") (default [] (content_type r)))
      then json_body r else JDict [] in
    match error_data with
    | JDict kv =>
        Some (JDict [("error", JStr (T "api_error"));
                     ("message", dget_or kv "error" (JStr (T "Unknown error")))])
    | _ => None
    end.

(** the [for attempt in range(MAX_RETRIES)] loop of [call_chat_api] from
    [attempt] on, with [fuel] attempts left; [post attempt] is the outcome
    of the request of that attempt.  Returns the attempts made and the
    result. *)
Fixpoint call_chat_from (post : nat -> transport) (attempt fuel : nat)
  : list nat * option jval :=
  match fuel with
  | 0 => ([], Some (err_dict "max_retries" "Maximum retries exceeded"))
  | S f =>
      match post attempt with
      | TResponse r => ([attempt], handle_api_response r)
      | TTimeout =>
          if attempt =? MAX_RETRIES - 1
          then ([attempt], Some (err_dict "timeout" "Request timed out"))
          else let '(rest, res) := call_chat_from post (S attempt) f in
               (attempt :: rest, res)
      | TConnectionError => ([attempt], Some (err_dict "connection" "Backend connection failed"))
      | TRequestError m =>
          ([attempt], Some (JDict [("error", JStr (T "request")); ("message", JStr m)]))
      end
  end.

Definition call_chat_api (post : nat -> transport) : list nat * option jval :=
  call_chat_from post 0 MAX_RETRIES.

(** [get_backend_status]; [None] when [.get] raises on a non-object body *)
Definition get_backend_status (t : transport) : option jval :=
  match t with
  | TResponse r =>
      if status_code r =? 200 then
        match json_body r with
        | JDict kv => Some (dget_or kv "status" (JStr (T "Unknown")))
        | _ => None
        end
      else Some (JStr (T "Error"))
  | _ => Some (JStr (T "Disconnected"))
  end.

End UI.

(** ** Sample inputs for the concrete instances of the properties *)

Module Samples.
Import Orchestrator.

(** a configured backend with the default settings *)
Definition cfg_default : config :=
  {| configured := true; client_model := T "default"; privacy_env := None;
     max_len := 10000 |}.

(** a provider whose answer contains a phone number *)
Definition up_phone (_ : up_req) : upstream_exc + completion :=
  inr {| c_content := Some (T "call 555-123-4567"); c_model := T "default" |}.

(** a chat body with a message, a conversation history and a messages list *)
Definition body_with_history : list (string * jval) :=
  [("message", JStr (T "hi"));
   ("conversation", JList [JDict [("role", JStr (T "user")); ("content", JStr (T "old"))]]);
   ("messages", JList [JDict [("role", JStr (T "system")); ("content", JStr (T "x"))]])].

(** a monitor that has blocked the address 6.6.6.6 *)
Definition blocked_home : Monitor.state := Monitor.block_ip Monitor.fresh "6.6.6.6".

(** requests from the blocked address, each with a new X-Real-IP header *)
Definition rotating : list Gate.request :=
  [{| Gate.x_real_ip := Some "1.1.1.1"%string; Gate.remote_addr := "6.6.6.6"; Gate.at_time := 0 |};
   {| Gate.x_real_ip := Some "1.1.1.2"%string; Gate.remote_addr := "6.6.6.6"; Gate.at_time := 1 |};
   {| Gate.x_real_ip := Some "1.1.1.3"%string; Gate.remote_addr := "6.6.6.6"; Gate.at_time := 2 |}].

(** a request of the client 9.9.9.9, without header, at time [t] *)
Definition burst_req (t : Z) : Gate.request :=
  {| Gate.x_real_ip := None; Gate.remote_addr := "9.9.9.9"; Gate.at_time := t |}.

(** three requests of that client, one second apart *)
Definition burst : list Gate.request := [burst_req 0; burst_req 1; burst_req 2].

End Samples.

(** ** The order of the validation checks *)

Module ValidatorSpec.
Import Validator.

(** the first failing check of an ordered list wins *)
Definition first_failure (checks : list (option verr)) : option verr :=
  fold_right (fun c acc => match c with Some e => Some e | None => acc end) None checks.

Definition model_check (rd : list (string * jval)) : option verr :=
  match dget_or rd "model" (JStr []) with
  | JStr m => if bool_decide (is_Some (match_at m model_re 0)) then None else Some InvalidModel
  | _ => Some TypeErr
  end.

Definition messages_check (rd : list (string * jval)) : option verr :=
  match dget_or rd "messages" (JList []) with
  | JList ms => if max_messages <? length ms then Some InvalidMessages else None
  | _ => Some InvalidMessages
  end.

Definition messages_of (rd : list (string * jval)) : list jval :=
  match dget_or rd "messages" (JList []) with JList ms => ms | _ => [] end.

Definition record_check (m : jval) : option verr :=
  match m with JDict _ => None | _ => Some NotDict end.

Definition role_check (m : jval) : option verr :=
  match m with
  | JDict kv =>
      match dget_or kv "role" JNone with
      | JStr r => if bool_decide (r ∈ allowed_roles) then None else Some (InvalidRole (JStr r))
      | JList _ | JDict _ => Some TypeErr
      | v => Some (InvalidRole v)
      end
  | _ => None
  end.

Definition length_check (mx : nat) (m : jval) : option verr :=
  match m with
  | JDict kv =>
      match py_len (dget_or kv "content" (JStr [])) with
      | Some n => if mx <? n then Some TooLong else None
      | None => Some TypeErr
      end
  | _ => None
  end.

(** sanitizing a content that is not a string raises TypeError *)
Definition content_check (m : jval) : option verr :=
  match m with
  | JDict kv => match dget_or kv "content" (JStr []) with JStr _ => None | _ => Some TypeErr end
  | _ => None
  end.

Definition max_tokens_check (rd : list (string * jval)) : option verr :=
  match dget rd "max_tokens" with
  | Some v => if max_tokens_ok v then None else Some InvalidMaxTokens
  | None => None
  end.

Definition temperature_check (rd : list (string * jval)) : option verr :=
  match dget rd "temperature" with
  | Some v => if temperature_ok v then None else Some InvalidTemperature
  | None => None
  end.

(** message by message: record, role, length, then the sanitizer's type *)
Definition message_checks (mx : nat) (m : jval) : list (option verr) :=
  [record_check m; role_check m; length_check mx m; content_check m].

Definition per_message_order (mx : nat) (rd : list (string * jval)) : list (option verr) :=
  [model_check rd; messages_check rd] ++
  concat (map (message_checks mx) (messages_of rd)) ++
  [max_tokens_check rd; temperature_check rd].

Definition raised (r : verr + validated) : option verr :=
  match r with inl e => Some e | inr _ => None end.

End ValidatorSpec.

(** ** Card-number shaped text, as the specification describes it *)

Module CardSpec.

(** four digits *)
Definition card_group (g : list ascii) : Prop :=
  length g = 4 /\ Forall (fun c => is_digit c = true) g.

(** an optional [-] or whitespace separator *)
Definition card_sep (o : list ascii) : Prop :=
  o = [] \/ exists c, o = [c] /\ Privacy.sep c = true.

(** 16 digits in groups of 4 with optional separators *)
Definition card_seq (d : list ascii) : Prop :=
  exists g1 o1 g2 o2 g3 o3 g4,
    d = g1 ++ o1 ++ g2 ++ o2 ++ g3 ++ o3 ++ g4 /\
    card_group g1 /\ card_group g2 /\ card_group g3 /\ card_group g4 /\
    card_sep o1 /\ card_sep o2 /\ card_sep o3.

Definition no_digit (a : list ascii) : Prop := Forall (fun c => is_digit c = false) a.

Definition starts_nonword (a : list ascii) : Prop :=
  match a with [] => True | c :: _ => is_word c = false end.

Definition ends_nonword (a : list ascii) : Prop :=
  match last a with None => True | Some c => is_word c = false end.

Definition flat (ps : list (list ascii * list ascii)) : list ascii :=
  concat (map (fun '(dd, a) => dd ++ a) ps).

(** where the card sequences of [pre ++ a0 ++ flat ps] are *)
Fixpoint card_spans (off : nat) (a0 : list ascii) (ps : list (list ascii * list ascii))
  : list (nat * nat) :=
  match ps with
  | [] => []
  | (dd, a) :: ps' =>
      let b := off + length a0 in (b, b + length dd) :: card_spans (b + length dd) a ps'
  end.

(** [a0 ++ d1 ++ a1 ++ ... ++ dn ++ an] *)
Definition layout (a0 : list ascii) (ps : list (list ascii * list ascii)) : list ascii :=
  a0 ++ flat ps.

(** the same text with every [di] replaced by [ph] *)
Definition layout_replaced (ph a0 : list ascii) (ps : list (list ascii * list ascii))
  : list ascii :=
  a0 ++ concat (map (fun '(_, a) => ph ++ a) ps).

(** the card sequences [di] are separated by digit-free text that starts and
    ends with a non-word character, and is not empty between two cards *)
Fixpoint gaps_ok (ps : list (list ascii * list ascii)) : Prop :=
  match ps with
  | [] => True
  | (d, a) :: ps' =>
      card_seq d /\ no_digit a /\ starts_nonword a /\ ends_nonword a /\
      (a = [] -> ps' = []) /\ gaps_ok ps'
  end.

End CardSpec.

(** * Properties *)

(** ** Sample runs *)

Example ex_sanitize :
  Sanitizer.sanitize_content (T "Hello <script>alert('xss')</script> world") = T "Hello  world".
Proof. vm_compute. reflexivity. Qed.

Example ex_redact :
  Privacy.redact_sensitive_data (T "call 123-456-7890, card 1234 5678 9012 3456")
  = T "call [REDACTED_PHONE], card [REDACTED_CREDIT_CARD]".
Proof. vm_compute. reflexivity. Qed.

(** ** Chat endpoints *)

Module OrchestratorFacts.
Import Validator Orchestrator.

Definition cfg_on : config :=
  {| configured := true; client_model := T "default"; privacy_env := None; max_len := 10000 |}.

Definition pii_message : list ascii := T "my ssn is 123-45-6789".

(** under an active request context, the body of [generate()] validates
    the message and calls the provider once, with no privacy check on the
    way; the deployed view never runs it that way (see C1) *)
Lemma generate_forwards_pii (up : up_req -> upstream_exc + stream) :
  fst (generate cfg_on up (Some {| q_message := Some pii_message; q_model := None |}))
    = [ {| u_model := T "default"; u_messages := [(T "user", pii_message)];
           u_kwargs := []; u_stream := true |} ].
Proof.
  unfold generate. cbv [q_message q_model]. cbv zeta.
  change (configured cfg_on) with true. cbn [negb].
  replace (validate_chat_request (max_len cfg_on) _)
    with (inr (A := verr)
            {| v_model := T "default"; v_messages := [(T "user", pii_message)];
               v_max_tokens := None; v_temperature := None |})
    by (vm_compute; reflexivity).
  destruct (up _); reflexivity.
Qed.

(** C1: on /api/chat a message carrying an SSN is refused with a privacy
    violation before any upstream call.  On /api/chat/stream the same
    message, whatever the [model] parameter, is not refused with a
    privacy violation: the generator runs after the request context is
    gone, so its first statement raises and the only event is the
    RuntimeError's text; the endpoint makes no upstream call, and no
    privacy check either. *)
Theorem stream_aborts_without_privacy_check
  (up_sync : up_req -> upstream_exc + completion)
  (up_stream : up_req -> upstream_exc + stream) (mp : option (list ascii)) :
  privacy_enabled cfg_on = true /\
  Privacy.validate_request_privacy [Sanitizer.sanitize_content pii_message] <> [] /\
  chat_completion cfg_on up_sync (Some (JDict [("message", JStr pii_message)]))
    = ([], err 400 "Privacy violation detected") /\
  chat_stream cfg_on up_stream {| q_message := Some pii_message; q_model := mp |}
    = ([], [EvError (MsgText request_context_error)]) /\
  request_context_error <> T "Privacy violation detected".
Proof.
  split; [reflexivity |].
  split; [vm_compute; discriminate |].
  split; [vm_compute; reflexivity |].
  split; [reflexivity |].
  vm_compute. discriminate.
Qed.

End OrchestratorFacts.

(** ** Rate limiter *)

Module MonitorFacts.
Import Monitor.

Lemma filter_recent_all (now window : Z) (l : list Z) :
  Forall (fun t => (now - t < window)%Z) l ->
  filter (fun req_time => bool_decide (now - req_time < window)%Z) l = l.
Proof.
  induction 1 as [|t l Ht _ IH]; [reflexivity |].
  rewrite filter_cons, bool_decide_true by exact Ht. f_equal. exact IH.
Qed.

(** one admitted call: the window keeps all [l], which is under the limit *)
Lemma check_admit (env : env_int) (st : state) (ip : string) (limit window now : Z)
  (l : list Z) :
  limit <> 100%Z ->
  default [] (rate_limits st !! ip) = l ->
  Forall (fun t => (now - t < window)%Z) l ->
  (Z.of_nat (length l) < limit)%Z ->
  check_rate_limit env st ip limit window now
  = Some (true, {| rate_limits := <[ip := l ++ [now]]> (rate_limits st);
                   blocked_ips := blocked_ips st |}).
Proof.
  intros Hl Hd Hf Hlt. unfold check_rate_limit, check_with_limit.
  rewrite bool_decide_false by exact Hl. cbn.
  rewrite Hd, filter_recent_all by exact Hf.
  rewrite bool_decide_false by lia. cbn.
  rewrite insert_insert_eq. reflexivity.
Qed.

(** one refused call: the window keeps all [l], which reaches the limit *)
Lemma check_refuse (env : env_int) (st : state) (ip : string) (limit window now : Z)
  (l : list Z) :
  limit <> 100%Z ->
  default [] (rate_limits st !! ip) = l ->
  Forall (fun t => (now - t < window)%Z) l ->
  (limit <= Z.of_nat (length l))%Z ->
  check_rate_limit env st ip limit window now
  = Some (false, {| rate_limits := <[ip := l]> (rate_limits st);
                    blocked_ips := {[ip]} ∪ blocked_ips st |}).
Proof.
  intros Hl Hd Hf Hle. unfold check_rate_limit, check_with_limit.
  rewrite bool_decide_false by exact Hl. cbn.
  rewrite Hd, filter_recent_all by exact Hf.
  rewrite bool_decide_true by lia. reflexivity.
Qed.

Lemma step_keeps_blocked (env : env_int) (st : state) (o : op) (ip : string) :
  ip ∈ blocked_ips st -> ip ∈ blocked_ips (step env st o).
Proof.
  intros H. destruct o as [ip' limit window now | ip' reason | ip']; cbn.
  - unfold check_rate_limit.
    destruct (if bool_decide (limit = 100%Z) then env_limit env else Some limit)
      as [l|]; [| exact H].
    unfold check_with_limit.
    case_bool_decide; cbn; set_solver.
  - set_solver.
  - exact H.
Qed.

Lemma run_keeps_blocked (env : env_int) (ops : list op) (st : state) (ip : string) :
  ip ∈ blocked_ips st -> ip ∈ blocked_ips (run env st ops).
Proof.
  revert st. induction ops as [|o ops IH]; intros st H; [exact H |].
  apply IH, step_keeps_blocked, H.
Qed.

(** C5: the block set is append-only: once [is_blocked id] holds, it
    holds after any sequence of [check_rate_limit], [block_ip] and
    [is_blocked] operations. *)
Theorem blocked_forever (env : env_int) (st : state) (ops : list op) (ip : string) :
  is_blocked st ip = true -> is_blocked (run env st ops) ip = true.
Proof.
  unfold is_blocked. rewrite !bool_decide_eq_true. apply run_keeps_blocked.
Qed.

Lemma blocked_forever_witness :
  is_blocked (block_ip fresh "10.0.0.1") "10.0.0.1" = true /\
  is_blocked (run EnvUnset (block_ip fresh "10.0.0.1")
                [OpCheck "10.0.0.1" 5 60 0; OpIsBlocked "10.0.0.1";
                 OpCheck "10.0.0.1" 100 3600 7200]) "10.0.0.1" = true.
Proof.
  assert (H : is_blocked (block_ip fresh "10.0.0.1") "10.0.0.1" = true)
    by (unfold is_blocked; apply bool_decide_eq_true; cbn; set_solver).
  split; [exact H | apply (blocked_forever EnvUnset _ _ "10.0.0.1"); exact H].
Defined.

(** C4: with a fresh monitor, five calls of [check_rate_limit(id, 5, 60)]
    are admitted, the sixth within the window is refused without
    recording its timestamp, and [id] stays blocked after any later
    operations, including calls long after the window. *)
Theorem five_then_blocked (env : env_int) (ip : string) (t1 t2 t3 t4 t5 t6 : Z) :
  (t1 <= t2)%Z -> (t2 <= t3)%Z -> (t3 <= t4)%Z -> (t4 <= t5)%Z -> (t5 <= t6)%Z ->
  (t6 - t1 < 60)%Z ->
  let '(oks, st) := run_checks env fresh ip 5 60 [t1; t2; t3; t4; t5; t6] in
  oks = [true; true; true; true; true; false] /\
  rate_limits st !! ip = Some [t1; t2; t3; t4; t5] /\
  forall ops, is_blocked (run env st ops) ip = true.
Proof.
  intros H12 H23 H34 H45 H56 Hwin.
  cbn [run_checks].
  rewrite (check_admit env _ ip 5 60 t1 []) by (cbn; rewrite ?lookup_empty; auto; lia).
  rewrite (check_admit env _ ip 5 60 t2 [t1])
    by (cbn; rewrite ?lookup_insert_eq; auto; repeat constructor; lia).
  rewrite (check_admit env _ ip 5 60 t3 [t1; t2])
    by (cbn; rewrite ?lookup_insert_eq; auto; repeat constructor; lia).
  rewrite (check_admit env _ ip 5 60 t4 [t1; t2; t3])
    by (cbn; rewrite ?lookup_insert_eq; auto; repeat constructor; lia).
  rewrite (check_admit env _ ip 5 60 t5 [t1; t2; t3; t4])
    by (cbn; rewrite ?lookup_insert_eq; auto; repeat constructor; lia).
  rewrite (check_refuse env _ ip 5 60 t6 [t1; t2; t3; t4; t5])
    by (cbn; rewrite ?lookup_insert_eq; auto; repeat constructor; lia).
  cbn. split; [reflexivity |]. split.
  - rewrite lookup_insert_eq. reflexivity.
  - intros ops. unfold is_blocked. apply bool_decide_eq_true.
    apply run_keeps_blocked. cbn. set_solver.
Qed.

Lemma five_then_blocked_witness :
  let '(oks, st) := run_checks EnvUnset fresh "10.0.0.1" 5 60 [0; 10; 20; 30; 40; 59]%Z in
  oks = [true; true; true; true; true; false] /\
  rate_limits st !! "10.0.0.1" = Some [0; 10; 20; 30; 40]%Z /\
  forall ops, is_blocked (run EnvUnset st ops) "10.0.0.1" = true.
Proof. apply five_then_blocked; lia. Defined.

(** C10: a [limit] argument of exactly 100, the default, stands for the
    environment's RATE_LIMIT_PER_HOUR (100 when unset); any other limit is
    used as given.  Hence when the environment sets an integer [L <> 100],
    no argument makes the effective limit 100. *)
Theorem limit_100_means_env (env : env_int) (st : state) (ip : string)
  (window now : Z) :
  (forall limit, limit <> 100%Z ->
     check_rate_limit env st ip limit window now
     = Some (check_with_limit st ip limit window now)) /\
  check_rate_limit EnvUnset st ip 100 window now
    = Some (check_with_limit st ip 100 window now) /\
  (forall L, check_rate_limit (EnvInt L) st ip 100 window now
             = Some (check_with_limit st ip L window now)) /\
  (forall L limit, L <> 100%Z ->
     exists l, l <> 100%Z /\
       check_rate_limit (EnvInt L) st ip limit window now
       = Some (check_with_limit st ip l window now)).
Proof.
  split; [| split; [| split]].
  - intros limit Hl. unfold check_rate_limit. rewrite bool_decide_false by exact Hl.
    reflexivity.
  - reflexivity.
  - intros L. reflexivity.
  - intros L limit HL. unfold check_rate_limit.
    case_bool_decide as Hl.
    + exists L. split; [exact HL | reflexivity].
    + exists limit. split; [exact Hl | reflexivity].
Qed.

End MonitorFacts.

(** ** Request validation *)

Module ValidatorFacts.
Import Validator ValidatorSpec.

Lemma first_failure_app (l1 l2 : list (option verr)) :
  first_failure (l1 ++ l2)
  = match first_failure l1 with Some e => Some e | None => first_failure l2 end.
Proof.
  induction l1 as [|[e|] l1 IH]; cbn; [reflexivity | reflexivity | exact IH].
Qed.

Lemma validate_message_first (mx : nat) (m : jval) :
  match validate_message mx m with inl e => Some e | inr _ => None end
  = first_failure (message_checks mx m).
Proof.
  destruct m as [| | | | | |kv]; try reflexivity.
  unfold validate_message, message_checks, record_check, role_check,
    length_check, content_check.
  destruct (dget_or kv "role" JNone) as [| | | |r| |]; try reflexivity.
  case_bool_decide; [| reflexivity].
  destruct (dget_or kv "content" (JStr [])) as [| | | |c|l|kv'];
    cbn -[Nat.ltb Sanitizer.sanitize_content]; try reflexivity;
    match goal with |- context [mx <? ?n] => destruct (mx <? n) end; reflexivity.
Qed.

Lemma validate_messages_first (mx : nat) (ms : list jval) :
  match validate_messages mx ms with inl e => Some e | inr _ => None end
  = first_failure (concat (map (message_checks mx) ms)).
Proof.
  induction ms as [|m ms IH]; [reflexivity |].
  cbn [validate_messages map concat]. rewrite first_failure_app.
  rewrite <- validate_message_first.
  destruct (validate_message mx m); [reflexivity |].
  rewrite <- IH. destruct (validate_messages mx ms); reflexivity.
Qed.

(** [validate_chat_request] raises exactly the first failure in the order
    model, messages, then message by message (record, role, length, string
    content), then max_tokens, then temperature *)
Lemma validate_raises_first_failure (mx : nat) (rd : list (string * jval)) :
  raised (validate_chat_request mx rd) = first_failure (per_message_order mx rd).
Proof.
  unfold validate_chat_request, per_message_order, model_check, messages_check,
    messages_of.
  destruct (dget_or rd "model" (JStr [])) as [| | | |m| |]; try reflexivity.
  case_bool_decide; [| reflexivity]. cbn [negb].
  destruct (dget_or rd "messages" (JList [])) as [| | | | |ms|]; try reflexivity.
  destruct (max_messages <? length ms); [reflexivity |].
  cbn [app first_failure fold_right].
  change (fold_right _ None ?l) with (first_failure l).
  rewrite first_failure_app, <- validate_messages_first.
  destruct (validate_messages mx ms); [reflexivity |].
  unfold max_tokens_check, temperature_check.
  destruct (dget rd "max_tokens") as [mt|], (dget rd "temperature") as [tp|];
    cbn; repeat match goal with
                | |- context [max_tokens_ok ?v] => destruct (max_tokens_ok v)
                | |- context [temperature_ok ?v] => destruct (temperature_ok v)
                end; reflexivity.
Qed.

(** C3: the temperature check [temp < 0 or temp > 2] lets NaN through,
    which [request.get_json()] produces from the JSON literal [NaN]: both
    comparisons are False for NaN, so a request with temperature NaN,
    outside [0, 2], is validated and its temperature kept.  Finite
    temperatures outside [0, 2] and the infinities are refused, and so
    are the three requests of the specification, each with its own
    error.  A model or a content that is not a string makes the checks
    raise a TypeError instead of their ValueError. *)
Theorem nan_temperature_accepted (mx : nat) :
  validate_chat_request mx
    [("model", JStr (T "llama")); ("messages", JList []); ("temperature", JFloat FNaN)]
    = inr {| v_model := T "llama"; v_messages := []; v_max_tokens := None;
             v_temperature := Some (JFloat FNaN) |} /\
  validate_chat_request mx
    [("model", JStr (T "llama")); ("messages", JList []);
     ("temperature", JFloat (FNum (5 # 2)))]
    = inl InvalidTemperature /\
  validate_chat_request mx
    [("model", JStr (T "llama")); ("messages", JList []); ("temperature", JFloat (FInf false))]
    = inl InvalidTemperature /\
  validate_chat_request mx
    [("model", JStr (T "llama")); ("messages", JList (repeat (JDict []) 101))]
    = inl InvalidMessages /\
  validate_chat_request mx
    [("model", JStr (T "llama"));
     ("messages", JList [JDict [("role", JStr (T "hacker")); ("content", JStr (T "hi"))]])]
    = inl (InvalidRole (JStr (T "hacker"))) /\
  validate_chat_request mx
    [("model", JStr (T "llama"));
     ("messages", JList [JDict [("role", JStr (T "user")); ("content", JStr [])]]);
     ("max_tokens", JInt 5000)]
    = inl InvalidMaxTokens /\
  validate_chat_request mx [("model", JInt 5); ("messages", JList [])] = inl TypeErr /\
  validate_chat_request mx
    [("model", JStr (T "llama"));
     ("messages", JList [JDict [("role", JStr (T "user")); ("content", JList [])]])]
    = inl TypeErr.
Proof.
  split; [reflexivity |]. split; [reflexivity |]. split; [reflexivity |].
  split; [reflexivity |]. split; [reflexivity |].
  split; [cbn; destruct mx; reflexivity |].
  split; [reflexivity |].
  cbn. destruct mx; reflexivity.
Qed.

End ValidatorFacts.

(** ** Sanitizer and privacy filter *)

Module FilterFacts.
Import Sanitizer Privacy.

Lemma Forall_lstrip (P : ascii -> Prop) (s : list ascii) :
  Forall P s -> Forall P (lstrip s).
Proof.
  induction 1 as [|c s Hc Hs IH]; cbn; [constructor |].
  destruct (is_space c); [exact IH | constructor; assumption].
Qed.

Lemma Forall_strip (P : ascii -> Prop) (s : list ascii) :
  Forall P s -> Forall P (strip s).
Proof.
  intros H. unfold strip. apply Forall_rev, Forall_lstrip, Forall_rev, Forall_lstrip, H.
Qed.

(** every character of a sanitized text is in the kept class *)
Lemma sanitize_allowed (s : list ascii) :
  Forall (fun c => allowed c = true) (sanitize_content s).
Proof.
  unfold sanitize_content. apply Forall_strip. unfold drop_special.
  apply Forall_forall. intros c Hc. apply list_elem_of_filter in Hc as [Hc _].
  apply Is_true_true_1, Hc.
Qed.

Lemma not_in_of_Forall (c : ascii) (s a b w : list ascii) :
  Forall (fun x => allowed x = true) s -> c ∈ w -> allowed c = false ->
  s <> a ++ w ++ b.
Proof.
  intros Hs Hw Hc ->. rewrite Forall_forall in Hs.
  assert (Hin : c ∈ a ++ w ++ b) by (apply elem_of_app; right;
                                      apply elem_of_app; left; exact Hw).
  rewrite (Hs c Hin) in Hc. discriminate.
Qed.

(** C7: a sanitized text never contains [<script] nor [javascript:], in
    any casing: the final character filter deletes every [<] and every
    [:], whatever the earlier substitutions left. *)
Theorem sanitize_no_script (s : list ascii) :
  Forall (fun c => c <> "<"%char /\ c <> ":"%char) (sanitize_content s) /\
  (forall a b, map lower (sanitize_content s) <> a ++ T "<script" ++ b) /\
  (forall a b, map lower (sanitize_content s) <> a ++ T "javascript:" ++ b).
Proof.
  pose proof (sanitize_allowed s) as H.
  assert (Hl : Forall (fun x => allowed x = true) (map lower (sanitize_content s))).
  { apply Forall_map. eapply Forall_impl; [exact H |].
    intros c Hc. unfold lower. destruct (is_upper c) eqn:Hu; [| exact Hc].
    unfold allowed, is_word, is_alnum, is_lower, in_range, code.
    unfold is_upper, in_range, code in Hu.
    apply andb_prop in Hu as [H1 H2]. apply Nat.leb_le in H1, H2.
    rewrite nat_ascii_embedding by lia.
    replace (97 <=? nat_of_ascii c + 32) with true by (symmetry; apply Nat.leb_le; lia).
    replace (nat_of_ascii c + 32 <=? 122) with true by (symmetry; apply Nat.leb_le; lia).
    rewrite !orb_true_r. reflexivity. }
  split; [| split].
  - eapply Forall_impl; [exact H |]. intros c Hc.
    split; intros ->; discriminate.
  - intros a b. apply (not_in_of_Forall "<"%char); [exact Hl | | reflexivity].
    cbn. constructor.
  - intros a b. apply (not_in_of_Forall ":"%char); [exact Hl | | reflexivity].
    cbn. do 10 right. constructor.
Qed.

(** the matcher only succeeds through its continuation *)
Lemma mt_cont (s : list ascii) (r : rx) :
  forall i k e, mt s r i k = Some e -> exists j, k j = Some e.
Proof.
  induction r as [| p | r1 IH1 r2 IH2 | r1 IH1 | p g lo hi | |]; intros i k e H;
    cbn [mt] in H.
  - eauto.
  - destruct (s !! i); [| discriminate]. destruct (p a); [eauto | discriminate].
  - destruct (IH1 _ _ _ H) as [j Hj]. eapply IH2, Hj.
  - destruct (mt s r1 i k) eqn:E; [| eauto]. injection H as <-. eapply IH1, E.
  - revert H. match goal with |- (if ?c then _ else first_ok _ ?l) = _ -> _ =>
      destruct c; [discriminate |]; generalize l end.
    intros l. induction l as [|x l IHl]; cbn; [discriminate |].
    destruct (k (i + x)) eqn:E; [intros [= <-]; eauto | exact IHl].
  - destruct (word_boundary s i); [eauto | discriminate].
  - destruct (_ || _); [eauto | discriminate].
Qed.

Lemma mt_seq (s : list ascii) (r1 r2 : rx) (i : nat) (k : nat -> option nat) :
  mt s (RSeq r1 r2) i k = mt s r1 i (fun j => mt s r2 j k).
Proof. reflexivity. Qed.

Lemma mt_cls (s : list ascii) (p : ascii -> bool) (i : nat) (k : nat -> option nat) e :
  mt s (RCls p) i k = Some e -> exists c, s !! i = Some c /\ p c = true.
Proof.
  cbn [mt]. destruct (s !! i) as [c|]; [| discriminate].
  destruct (p c) eqn:Ep; [eauto | discriminate].
Qed.

(** a match of the email pattern goes through an [@] of the text *)
Lemma email_needs_at (s : list ascii) (i e : nat) :
  match_at s email_re i = Some e -> "@"%char ∈ s.
Proof.
  unfold match_at, email_re, rcat. cbn [fold_right].
  rewrite mt_seq. intros H. apply mt_cont in H as [j H].
  rewrite mt_seq in H. apply mt_cont in H as [j' H].
  rewrite mt_seq in H. unfold lit, rcat in H. cbn [map list_ascii_of_string fold_right] in H.
  rewrite mt_seq in H. apply mt_cls in H as [c [Hc Ec]].
  unfold is_char in Ec. apply Ascii.eqb_eq in Ec as ->.
  eapply list_elem_of_lookup_2, Hc.
Qed.

Lemma search_from_none (s : list ascii) (r : rx) :
  (forall i, match_at s r i = None) -> forall i fuel, search_from s r i fuel = None.
Proof.
  intros H i fuel. revert i. induction fuel as [|f IH]; intros i; cbn; rewrite H; auto.
Qed.

Lemma finditer_none (s : list ascii) (r : rx) :
  (forall i, match_at s r i = None) -> finditer s r = [].
Proof.
  intros H. unfold finditer. cbn. unfold search. rewrite search_from_none by exact H.
  reflexivity.
Qed.

Lemma at_not_allowed : allowed "@"%char = false.
Proof. reflexivity. Qed.

Lemma sanitize_no_at (s : list ascii) : "@"%char ∉ sanitize_content s.
Proof.
  intros Hin. pose proof (sanitize_allowed s) as H. rewrite Forall_forall in H.
  pose proof at_not_allowed as Ha. rewrite (H _ Hin) in Ha. discriminate.
Qed.

Lemma detect_no_email (t : list ascii) :
  "@"%char ∉ t -> Forall (fun f => fst f <> "email"%string) (detect_sensitive_data t).
Proof.
  intros Hat. unfold detect_sensitive_data, patterns. cbn [map concat].
  rewrite (finditer_none t email_re)
    by (intros i; destruct (match_at t email_re i) eqn:E; [|reflexivity];
        exfalso; eapply Hat, email_needs_at, E).
  cbn [map app].
  repeat (apply Forall_app; split); (constructor || apply Forall_forall); intros [k v] Hf; apply list_elem_of_In, in_map_iff in Hf;
    destruct Hf as [[b e] [Hf _]]; cbn in Hf; injection Hf as <- _; discriminate.
Qed.

Lemma Forall_concat_imap {A B} (Q : A -> Prop) (P : B -> Prop)
  (f : nat -> A -> list B) (l : list A) :
  Forall Q l -> (forall i x, Q x -> Forall P (f i x)) -> Forall P (concat (imap f l)).
Proof.
  intros Hl. revert f. induction Hl as [|x l Hx _ IH]; intros f H; [constructor |].
  rewrite imap_cons. cbn. apply Forall_app. split; [apply H, Hx | apply IH; intros; apply H; assumption].
Qed.

Lemma validate_messages_sanitized (mx : nat) (ms : list jval) vms :
  Validator.validate_messages mx ms = inr vms ->
  Forall (fun rc => exists c, snd rc = sanitize_content c) vms.
Proof.
  revert vms. induction ms as [|m ms IH]; intros vms H; cbn in H.
  - injection H as <-. constructor.
  - destruct (Validator.validate_message mx m) as [|[r c]] eqn:Em; [discriminate |].
    destruct (Validator.validate_messages mx ms) as [|vms'] eqn:Ems; [discriminate |].
    injection H as <-. constructor; [| apply IH; reflexivity].
    unfold Validator.validate_message in Em.
    destruct m as [| | | | | |kv]; try discriminate.
    destruct (dget_or kv "role" JNone); try discriminate.
    case_bool_decide; [| discriminate].
    destruct (Validator.py_len _); [| discriminate].
    destruct (_ <? _); [discriminate |].
    destruct (dget_or kv "content" (JStr [])); try discriminate.
    injection Em as _ <-. eauto.
Qed.

Lemma validated_sanitized (mx : nat) (rd : list (string * jval)) (vr : Validator.validated) :
  Validator.validate_chat_request mx rd = inr vr ->
  Forall (fun c => exists c0, c = sanitize_content c0) (map snd (Validator.v_messages vr)).
Proof.
  intros H. unfold Validator.validate_chat_request in H.
  destruct (dget_or rd "model" (JStr [])); try discriminate.
  destruct (negb _); [discriminate |].
  destruct (dget_or rd "messages" (JList [])); try discriminate.
  destruct (_ <? _); [discriminate |].
  destruct (Validator.validate_messages mx l) as [|vms] eqn:Ev; [discriminate |].
  apply validate_messages_sanitized in Ev.
  assert (Hm : Validator.v_messages vr = vms).
  { repeat match goal with
           | H : context [match ?x with _ => _ end] |- _ => destruct x
           end; try discriminate; injection H as <-; reflexivity. }
  rewrite Hm. apply Forall_map. exact Ev.
Qed.

(** C9: no text that went through [sanitize_content] yields an email
    finding, since the sanitizer deletes every [@]; so the privacy check
    of /api/chat, which runs on the validated (sanitized) messages, never
    reports the email kind. *)
Theorem sanitized_never_email :
  (forall s, Forall (fun f => fst f <> "email"%string)
                    (detect_sensitive_data (sanitize_content s))) /\
  (forall mx rd vr, Validator.validate_chat_request mx rd = inr vr ->
     Forall (fun v => "email"%string ∉ snd v)
            (validate_request_privacy (map snd (Validator.v_messages vr)))).
Proof.
  split.
  - intros s. apply detect_no_email, sanitize_no_at.
  - intros mx rd vr H. apply validated_sanitized in H.
    unfold validate_request_privacy. apply (Forall_concat_imap _ _ _ _ H).
    intros i c [c0 ->]. unfold violation_of.
    pose proof (detect_no_email _ (sanitize_no_at c0)) as Hd.
    destruct (detect_sensitive_data (sanitize_content c0)) as [|f fs] eqn:Ed;
      [constructor |].
    constructor; [| constructor]. cbn.
    intros Hin. change (f.1 :: map fst fs) with (map fst (f :: fs)) in Hin.
    apply list_elem_of_In, in_map_iff in Hin as [g [Hg Hin]].
    rewrite Forall_forall in Hd. apply (Hd g); [apply list_elem_of_In; exact Hin | exact Hg].
Qed.

End FilterFacts.

(** ** Matching card numbers *)

Module CardFacts.
Import Privacy CardSpec.

Lemma mt_wordb (s : list ascii) (i : nat) (k : nat -> option nat) :
  word_boundary s i = true -> mt s RWordB i k = k i.
Proof. intros H. cbn [mt]. rewrite H. reflexivity. Qed.

Lemma run_len_ge (p : ascii -> bool) (l : list ascii) (n : nat) :
  (forall j, j < n -> exists c, l !! j = Some c /\ p c = true) -> n <= run_len p l.
Proof.
  revert l. induction n as [|n IH]; intros l H; [lia |].
  destruct l as [|c l].
  - destruct (H 0 ltac:(lia)) as [c [Hc _]]. discriminate.
  - destruct (H 0 ltac:(lia)) as [c' [Hc Hp]]. injection Hc as <-.
    cbn. rewrite Hp. apply le_n_S, IH. intros j Hj.
    apply (H (S j)). lia.
Qed.

Lemma run_len_zero (p : ascii -> bool) (l : list ascii) :
  match l with [] => True | c :: _ => p c = false end -> run_len p l = 0.
Proof. destruct l; cbn; [reflexivity |]. intros ->. reflexivity. Qed.

(** [\d{n}] on [n] digits *)
Lemma mt_digits (s : list ascii) (i n : nat) (k : nat -> option nat) :
  (forall j, j < n -> exists c, s !! (i + j) = Some c /\ is_digit c = true) ->
  mt s (d n) i k = match k (i + n) with Some e => Some e | None => None end.
Proof.
  intros H. unfold d. cbn [mt].
  assert (Hr : n <= run_len is_digit (drop i s)).
  { apply run_len_ge. intros j Hj. rewrite lookup_drop. apply H, Hj. }
  replace (Nat.min n (run_len is_digit (drop i s))) with n by lia.
  rewrite Nat.ltb_irrefl, Nat.sub_diag. reflexivity.
Qed.

(** [\d{n}] where no digit starts *)
Lemma mt_digits_fail (s : list ascii) (i n : nat) (k : nat -> option nat) :
  0 < n -> match s !! i with Some c => is_digit c = false | None => True end ->
  mt s (d n) i k = None.
Proof.
  intros Hn H. unfold d. cbn [mt].
  rewrite (run_len_zero is_digit (drop i s)).
  - replace (Nat.min n 0) with 0 by lia.
    destruct n; [lia | reflexivity].
  - destruct (drop i s) as [|c l] eqn:E; [exact I |].
    assert (Hl : s !! i = Some c) by (rewrite <- (Nat.add_0_r i), <- lookup_drop, E; reflexivity).
    rewrite Hl in H. exact H.
Qed.

Lemma mt_opt_taken (s : list ascii) (p : ascii -> bool) (i : nat) (k : nat -> option nat)
  (c : ascii) (e : nat) :
  s !! i = Some c -> p c = true -> k (S i) = Some e -> mt s (ROpt (RCls p)) i k = Some e.
Proof. intros Hc Hp Hk. cbn [mt]. rewrite Hc, Hp, Hk. reflexivity. Qed.

Lemma mt_opt_skipped (s : list ascii) (p : ascii -> bool) (i : nat) (k : nat -> option nat)
  (c : ascii) :
  s !! i = Some c -> p c = false -> mt s (ROpt (RCls p)) i k = k i.
Proof. intros Hc Hp. cbn [mt]. rewrite Hc, Hp. reflexivity. Qed.

Lemma digit_not_sep (c : ascii) : is_digit c = true -> sep c = false.
Proof. destruct c as [[] [] [] [] [] [] [] []]; vm_compute; congruence. Qed.

Lemma digit_word (c : ascii) : is_digit c = true -> is_word c = true.
Proof. unfold is_word, is_alnum. intros ->. reflexivity. Qed.

Lemma lookup_at (u x w : list ascii) (j : nat) :
  j < length x -> (u ++ x ++ w) !! (length u + j) = x !! j.
Proof.
  intros Hj. rewrite lookup_app_r by lia.
  replace (length u + j - length u) with j by lia.
  apply lookup_app_l, Hj.
Qed.

Lemma lookup_after (u w : list ascii) (j : nat) :
  (u ++ w) !! (length u + j) = w !! j.
Proof. rewrite lookup_app_r by lia. f_equal. lia. Qed.

Lemma boundary_before (s u w : list ascii) (x : ascii) (n : nat) :
  s = u ++ x :: w -> n = length u -> ends_nonword u -> is_word x = true ->
  word_boundary s n = true.
Proof.
  intros -> -> Hu Hx. unfold word_boundary, word_at.
  rewrite <- (Nat.add_0_r (length u)) at 2. rewrite lookup_after. cbn. rewrite Hx.
  unfold ends_nonword in Hu. rewrite last_lookup in Hu.
  destruct (length u) as [|m] eqn:E; [reflexivity |].
  rewrite lookup_app_l by lia. cbn in Hu.
  destruct (u !! m); [rewrite Hu |]; reflexivity.
Qed.

Lemma boundary_after (s u w : list ascii) (x : ascii) (n : nat) :
  s = u ++ w -> n = length u -> last u = Some x -> is_word x = true ->
  starts_nonword w -> word_boundary s n = true.
Proof.
  intros -> -> Hl Hx Hw. unfold word_boundary, word_at.
  rewrite <- (Nat.add_0_r (length u)) at 2. rewrite lookup_after.
  rewrite last_lookup in Hl.
  destruct (length u) as [|m] eqn:E; [apply lookup_lt_Some in Hl; lia |].
  rewrite lookup_app_l by lia. cbn in Hl. rewrite Hl, Hx.
  destruct w as [|y w]; cbn in *; [| rewrite Hw]; reflexivity.
Qed.

Lemma group_digits (s u g w : list ascii) (n : nat) :
  s = u ++ g ++ w -> n = length u -> card_group g ->
  forall j, j < 4 -> exists c, s !! (n + j) = Some c /\ is_digit c = true.
Proof.
  intros -> -> [Hlen Hd] j Hj. rewrite lookup_at by lia.
  destruct (g !! j) as [c|] eqn:E.
  - exists c. split; [reflexivity |]. rewrite Forall_lookup in Hd. exact (Hd j c E).
  - apply lookup_ge_None in E. lia.
Qed.

(** one [\d{4}[-\s]?] over a group [g] and its separator [o] *)
Lemma mt_group_at (s u g o w : list ascii) (n : nat) (k : nat -> option nat) (e : nat) :
  s = u ++ g ++ o ++ w -> n = length u -> card_group g -> card_sep o ->
  (exists c, w !! 0 = Some c /\ is_digit c = true) ->
  k (n + 4 + length o) = Some e -> mt s cc_group n k = Some e.
Proof.
  intros Es En Hg Ho [c [Hc Hcd]] Hk. unfold cc_group. rewrite FilterFacts.mt_seq.
  rewrite mt_digits by (eapply group_digits; eauto).
  assert (Hl : forall j, s !! (n + 4 + j) = (o ++ w) !! j).
  { intros j. subst s n.
    replace (length u + 4 + j) with (length (u ++ g) + j)
      by (rewrite length_app; destruct Hg; lia).
    rewrite app_assoc. apply lookup_after. }
  destruct Ho as [-> | [x [-> Hx]]].
  - cbn in Hk. rewrite Nat.add_0_r in Hk.
    erewrite mt_opt_skipped.
    + rewrite Hk. reflexivity.
    + rewrite <- (Nat.add_0_r (n + 4)), Hl. exact Hc.
    + apply digit_not_sep, Hcd.
  - erewrite mt_opt_taken; [reflexivity | | exact Hx |].
    + rewrite <- (Nat.add_0_r (n + 4)), Hl. reflexivity.
    + cbn in Hk. rewrite <- Hk. f_equal. lia.
Qed.

(** the last [\d{4}\b] *)
Lemma mt_last_at (s u g w : list ascii) (n : nat) :
  s = u ++ g ++ w -> n = length u -> card_group g -> starts_nonword w ->
  mt s (RSeq (d 4) (RSeq RWordB REps)) n (fun j => Some j) = Some (n + 4).
Proof.
  intros Es En Hg Hw. rewrite FilterFacts.mt_seq.
  rewrite mt_digits by (eapply group_digits; eauto).
  rewrite FilterFacts.mt_seq, mt_wordb; [reflexivity |].
  destruct Hg as [Hlen Hd].
  destruct (last g) as [x|] eqn:Ex.
  - eapply (boundary_after s (u ++ g) w x); [subst; apply app_assoc | | | | exact Hw].
    + rewrite length_app. lia.
    + rewrite last_app. rewrite Ex. reflexivity.
    + apply digit_word. rewrite Forall_lookup in Hd. rewrite last_lookup in Ex. exact (Hd _ _ Ex).
  - rewrite last_None in Ex. subst g. discriminate.
Qed.

Lemma group_head (g r : list ascii) :
  card_group g -> exists c, (g ++ r) !! 0 = Some c /\ is_digit c = true.
Proof.
  intros [Hl Hd]. destruct g as [|c g]; [discriminate |].
  exists c. split; [reflexivity |]. inversion Hd; assumption.
Qed.

Lemma card_seq_length (dd : list ascii) : card_seq dd -> 16 <= length dd.
Proof.
  intros (g1 & o1 & g2 & o2 & g3 & o3 & g4 & -> & [H1 _] & [H2 _] & [H3 _] & [H4 _] & _).
  rewrite !length_app. lia.
Qed.

Ltac list_eq := subst; rewrite <- ?app_assoc; reflexivity.
Ltac len_eq := subst; repeat match goal with H : card_group _ |- _ => destruct H as [? _] end;
  rewrite ?length_app; lia.

(** the pattern matches a card sequence [dd] standing between non-word characters,
    exactly over [dd] *)
Lemma cc_match (pre dd post : list ascii) :
  card_seq dd -> ends_nonword pre -> starts_nonword post ->
  match_at (pre ++ dd ++ post) credit_card_re (length pre) = Some (length pre + length dd).
Proof.
  intros (g1 & o1 & g2 & o2 & g3 & o3 & g4 & -> & H1 & H2 & H3 & H4 & S1 & S2 & S3) Hpre Hpost.
  remember (pre ++ (g1 ++ o1 ++ g2 ++ o2 ++ g3 ++ o3 ++ g4) ++ post) as s eqn:Es.
  unfold match_at, credit_card_re, rcat. cbn [fold_right].
  rewrite FilterFacts.mt_seq, mt_wordb.
  2:{ pose proof H1 as [_ Hd]. destruct g1 as [|x g1']; [destruct H1; discriminate |].
      eapply (boundary_before s pre (g1' ++ o1 ++ g2 ++ o2 ++ g3 ++ o3 ++ g4 ++ post) x);
        [list_eq | reflexivity | exact Hpre |].
      apply digit_word. inversion Hd; assumption. }
  rewrite FilterFacts.mt_seq.
  eapply (mt_group_at s pre g1 o1 (g2 ++ o2 ++ g3 ++ o3 ++ g4 ++ post));
    [list_eq | reflexivity | exact H1 | exact S1 | apply group_head, H2 |].
  rewrite FilterFacts.mt_seq.
  eapply (mt_group_at s (pre ++ g1 ++ o1) g2 o2 (g3 ++ o3 ++ g4 ++ post));
    [list_eq | len_eq | exact H2 | exact S2 | apply group_head, H3 |].
  rewrite FilterFacts.mt_seq.
  eapply (mt_group_at s (pre ++ g1 ++ o1 ++ g2 ++ o2) g3 o3 (g4 ++ post));
    [list_eq | len_eq | exact H3 | exact S3 | apply group_head, H4 |].
  rewrite (mt_last_at s (pre ++ g1 ++ o1 ++ g2 ++ o2 ++ g3 ++ o3) g4 post);
    [| list_eq | len_eq | exact H4 | exact Hpost].
  f_equal. len_eq.
Qed.

Lemma cc_no_match (s : list ascii) (q : nat) :
  match s !! q with Some c => is_digit c = false | None => True end ->
  match_at s credit_card_re q = None.
Proof.
  intros H. unfold match_at, credit_card_re, rcat. cbn [fold_right].
  rewrite FilterFacts.mt_seq.
  change (mt s RWordB q ?k) with (if word_boundary s q then k q else None).
  destruct (word_boundary s q); [| reflexivity].
  rewrite FilterFacts.mt_seq. unfold cc_group. rewrite FilterFacts.mt_seq.
  apply mt_digits_fail; [lia | exact H].
Qed.

Lemma search_from_skip (s : list ascii) (r : rx) (n : nat) :
  forall i fuel, (forall q, i <= q < i + n -> match_at s r q = None) -> n <= fuel ->
  search_from s r i fuel = search_from s r (i + n) (fuel - n).
Proof.
  induction n as [|n IH]; intros i fuel H Hn.
  - rewrite Nat.add_0_r, Nat.sub_0_r. reflexivity.
  - destruct fuel as [|f]; [lia |]. cbn [search_from].
    rewrite (H i) by lia.
    rewrite IH; [f_equal; lia | intros q Hq; apply H; lia | lia].
Qed.

Lemma search_from_hit (s : list ascii) (r : rx) (i fuel e : nat) :
  match_at s r i = Some e -> search_from s r i fuel = Some (i, e).
Proof. intros H. destruct fuel; cbn [search_from]; rewrite H; reflexivity. Qed.

Lemma search_from_nomatch (s : list ascii) (r : rx) (fuel : nat) :
  forall i, (forall q, i <= q <= i + fuel -> match_at s r q = None) ->
  search_from s r i fuel = None.
Proof.
  induction fuel as [|f IH]; intros i H; cbn [search_from]; rewrite (H i) by lia;
    [reflexivity |]. apply IH. intros q Hq. apply H. lia.
Qed.

(** no match starts inside digit-free text *)
Lemma gap_no_match (u a w : list ascii) (q : nat) :
  no_digit a -> length u <= q < length u + length a ->
  match_at (u ++ a ++ w) credit_card_re q = None.
Proof.
  intros Ha Hq. apply cc_no_match.
  replace q with (length u + (q - length u)) by lia.
  rewrite lookup_at by lia.
  destruct (a !! (q - length u)) as [c|] eqn:E; [| exact I].
  unfold no_digit in Ha. rewrite Forall_lookup in Ha. exact (Ha _ _ E).
Qed.

(** nor at the end of the text *)
Lemma end_no_match (s : list ascii) : match_at s credit_card_re (length s) = None.
Proof.
  apply cc_no_match. destruct (s !! length s) eqn:E; [| exact I].
  apply lookup_lt_Some in E. lia.
Qed.

Lemma ends_nonword_app (u a : list ascii) :
  a <> [] -> ends_nonword a -> ends_nonword (u ++ a).
Proof.
  intros Hne Ha. unfold ends_nonword in *. rewrite last_app.
  destruct (last a) eqn:E; [exact Ha |]. apply last_None in E. contradiction.
Qed.

Lemma ends_nonword_nil_app (u : list ascii) : ends_nonword (u ++ []) <-> ends_nonword u.
Proof. rewrite app_nil_r. reflexivity. Qed.

(** the search from the end of the scanned prefix [pre]: either no match is
    left, or the next one is the next card sequence *)
Lemma search_cards (pre a0 dd a : list ascii) (ps : list (list ascii * list ascii)) :
  no_digit a0 -> ends_nonword (pre ++ a0) -> gaps_ok ((dd, a) :: ps) ->
  search (pre ++ a0 ++ flat ((dd, a) :: ps)) credit_card_re (length pre)
  = Some (length pre + length a0, length pre + length a0 + length dd).
Proof.
  intros Ha0 Hend (Hdd & Ha & Hsa & Hea & Hlast & Hps).
  set (s := pre ++ a0 ++ flat ((dd, a) :: ps)).
  unfold search.
  assert (Hlen : length pre + length a0 + length dd <= length s).
  { subst s. cbn [flat map concat]. rewrite !length_app. lia. }
  rewrite (search_from_skip s credit_card_re (length a0)).
  - apply search_from_hit.
    replace s with ((pre ++ a0) ++ dd ++ (a ++ flat ps))
      by (subst s; cbn [flat map concat]; rewrite <- !app_assoc; reflexivity).
    replace (length pre + length a0) with (length (pre ++ a0)) by (rewrite length_app; lia).
    apply cc_match; [exact Hdd | exact Hend |].
    destruct a as [|c a']; [| exact Hsa].
    rewrite (Hlast eq_refl). exact I.
  - intros q Hq. apply (gap_no_match pre a0 (flat ((dd, a) :: ps))); [exact Ha0 | lia].
  - lia.
Qed.

Lemma search_no_cards (pre a0 : list ascii) :
  no_digit a0 -> search (pre ++ a0 ++ flat []) credit_card_re (length pre) = None.
Proof.
  intros Ha0. unfold search. apply search_from_nomatch. intros q Hq.
  change (flat []) with (@nil ascii) in *. rewrite app_nil_r in *. rewrite length_app in Hq.
  destruct (Nat.eq_dec q (length (pre ++ a0))) as [-> | Hne].
  - apply end_no_match.
  - rewrite <- (app_nil_r a0). apply gap_no_match; [exact Ha0 |].
    rewrite length_app in Hne. lia.
Qed.

Lemma gaps_next (dd a : list ascii) (ps : list (list ascii * list ascii)) (u : list ascii) :
  gaps_ok ((dd, a) :: ps) -> ps <> [] -> ends_nonword (u ++ a).
Proof.
  intros (_ & _ & _ & Hea & Hlast & _) Hne.
  apply ends_nonword_app; [| exact Hea]. intros ->. exact (Hne (Hlast eq_refl)).
Qed.

Lemma flat_cons (dd a : list ascii) (ps : list (list ascii * list ascii)) :
  flat ((dd, a) :: ps) = dd ++ a ++ flat ps.
Proof. unfold flat. cbn. rewrite app_assoc. reflexivity. Qed.

Lemma finditer_cards (ps : list (list ascii * list ascii)) :
  forall pre a0 fuel,
  gaps_ok ps -> no_digit a0 -> (ps <> [] -> ends_nonword (pre ++ a0)) -> length ps < fuel ->
  finditer_from (pre ++ a0 ++ flat ps) credit_card_re (length pre) fuel
  = card_spans (length pre) a0 ps.
Proof.
  induction ps as [|[dd a] ps IH]; intros pre a0 fuel Hg Ha0 Hend Hfuel;
    (destruct fuel as [|f]; [cbn in Hfuel; lia |]); cbn [finditer_from].
  - rewrite search_no_cards by exact Ha0. reflexivity.
  - rewrite search_cards; [| exact Ha0 | apply Hend; discriminate | exact Hg].
    pose proof Hg as (Hdd & Ha & _ & _ & _ & Hps).
    apply card_seq_length in Hdd.
    replace (length pre + length a0 + length dd =? length pre + length a0) with false
      by (symmetry; apply Nat.eqb_neq; lia).
    cbn [card_spans]. f_equal.
    replace (pre ++ a0 ++ flat ((dd, a) :: ps)) with ((pre ++ a0 ++ dd) ++ a ++ flat ps)
      by (rewrite flat_cons, <- !app_assoc; reflexivity).
    replace (length pre + length a0 + length dd) with (length (pre ++ a0 ++ dd))
      by (rewrite !length_app; lia).
    apply IH; [exact Hps | exact Ha | | cbn in Hfuel; lia].
    intros Hne. exact (gaps_next dd a ps _ Hg Hne).
Qed.

Lemma sub_cards (ph : list ascii) (ps : list (list ascii * list ascii)) :
  forall pre a0 fuel,
  gaps_ok ps -> no_digit a0 -> (ps <> [] -> ends_nonword (pre ++ a0)) -> length ps < fuel ->
  sub_from (pre ++ a0 ++ flat ps) credit_card_re ph (length pre) fuel
  = a0 ++ concat (map (fun '(_, a) => ph ++ a) ps).
Proof.
  induction ps as [|[dd a] ps IH]; intros pre a0 fuel Hg Ha0 Hend Hfuel;
    (destruct fuel as [|f]; [cbn in Hfuel; lia |]); cbn [sub_from].
  - rewrite search_no_cards by exact Ha0.
    rewrite drop_app_length. cbn. rewrite !app_nil_r. reflexivity.
  - rewrite search_cards; [| exact Ha0 | apply Hend; discriminate | exact Hg].
    pose proof Hg as (Hdd & Ha & _ & _ & _ & Hps).
    apply card_seq_length in Hdd.
    replace (length pre + length a0 + length dd =? length pre + length a0) with false
      by (symmetry; apply Nat.eqb_neq; lia).
    replace (pre ++ a0 ++ flat ((dd, a) :: ps)) with ((pre ++ a0 ++ dd) ++ a ++ flat ps)
      by (rewrite flat_cons, <- !app_assoc; reflexivity).
    replace (length pre + length a0 + length dd) with (length (pre ++ a0 ++ dd))
      by (rewrite !length_app; lia).
    rewrite IH; [| exact Hps | exact Ha | | cbn in Hfuel; lia].
    2:{ intros Hne. exact (gaps_next dd a ps _ Hg Hne). }
    cbn [map concat]. rewrite <- !app_assoc. f_equal.
    unfold slice. rewrite drop_app_length.
    replace (length pre + length a0 - length pre) with (length a0) by lia.
    rewrite take_app_length. reflexivity.
Qed.

Lemma slice_spans (ps : list (list ascii * list ascii)) :
  forall pre a0,
  map (fun '(b, e) => slice (pre ++ a0 ++ flat ps) b e) (card_spans (length pre) a0 ps)
  = map fst ps.
Proof.
  induction ps as [|[dd a] ps IH]; intros pre a0; [reflexivity |].
  cbn [card_spans map fst]. f_equal.
  - unfold slice. rewrite flat_cons.
    replace (pre ++ a0 ++ dd ++ a ++ flat ps) with ((pre ++ a0) ++ dd ++ (a ++ flat ps))
      by (rewrite <- !app_assoc; reflexivity).
    replace (length pre + length a0) with (length (pre ++ a0)) by (rewrite length_app; lia).
    rewrite drop_app_length.
    replace (length (pre ++ a0) + length dd - length (pre ++ a0)) with (length dd) by lia.
    apply take_app_length.
  - replace (pre ++ a0 ++ flat ((dd, a) :: ps)) with ((pre ++ a0 ++ dd) ++ a ++ flat ps)
      by (rewrite flat_cons, <- !app_assoc; reflexivity).
    replace (length pre + length a0 + length dd) with (length (pre ++ a0 ++ dd))
      by (rewrite !length_app; lia).
    apply IH.
Qed.

Lemma gaps_length (ps : list (list ascii * list ascii)) :
  gaps_ok ps -> length ps <= length (flat ps).
Proof.
  induction ps as [|[dd a] ps IH]; intros Hg; [cbn; lia |].
  destruct Hg as (Hdd & _ & _ & _ & _ & Hps). apply card_seq_length in Hdd.
  rewrite flat_cons, !length_app. cbn [length]. specialize (IH Hps). lia.
Qed.

Lemma filter_other_kind (k : string) (g : nat -> nat -> list ascii) (l : list (nat * nat)) :
  k <> "credit_card"%string ->
  filter (fun f : string * list ascii => f.1 = "credit_card"%string)
         (map (fun '(b, e) => (k, g b e)) l) = [].
Proof.
  intros Hk. induction l as [|[b e] l IH]; [reflexivity |].
  cbn [map]. rewrite filter_cons_False by (cbn; exact Hk). exact IH.
Qed.

Lemma filter_card_kind (g : nat -> nat -> list ascii) (l : list (nat * nat)) :
  filter (fun f : string * list ascii => f.1 = "credit_card"%string)
         (map (fun '(b, e) => ("credit_card"%string, g b e)) l)
  = map (fun x => ("credit_card"%string, x)) (map (fun '(b, e) => g b e) l).
Proof.
  induction l as [|[b e] l IH]; [reflexivity |].
  cbn [map]. rewrite filter_cons_True by reflexivity. f_equal. exact IH.
Qed.

Lemma redact_with_cons (k : string) (r : rx) (pats : list (string * rx)) (t : list ascii) :
  redact_with ((k, r) :: pats) t = redact_with pats (re_sub r (placeholder k) t).
Proof. reflexivity. Qed.

Lemma patterns_head : patterns = ("credit_card"%string, credit_card_re) :: tail patterns.
Proof. reflexivity. Qed.

(** ** Every credit_card match is a card sequence *)

Lemma run_len_prefix (p : ascii -> bool) (l : list ascii) (n : nat) :
  n <= run_len p l -> length (take n l) = n /\ Forall (fun c => p c = true) (take n l).
Proof.
  revert n. induction l as [|c l IH]; intros n H.
  - cbn in H. assert (n = 0) as -> by lia. split; [reflexivity | constructor].
  - destruct n as [|n]; [split; [reflexivity | constructor] |].
    cbn in H. destruct (p c) eqn:Hp; [| lia].
    destruct (IH n ltac:(lia)) as [Hl Hf].
    cbn. split; [rewrite Hl; reflexivity | constructor; assumption].
Qed.

(** [\d{4}] succeeds only over four digits *)
Lemma mt_d4_inv (s : list ascii) (i : nat) (k : nat -> option nat) (e : nat) :
  mt s (d 4) i k = Some e -> card_group (slice s i (i + 4)) /\ k (i + 4) = Some e.
Proof.
  unfold d. cbn [mt].
  destruct (Nat.min 4 (run_len is_digit (drop i s)) <? 4) eqn:Hlt; [discriminate |].
  apply Nat.ltb_ge in Hlt.
  replace (Nat.min 4 (run_len is_digit (drop i s)) - 4) with 0 by lia.
  cbn [seq rev app first_ok]. intros H.
  assert (Hk : k (i + 4) = Some e) by (destruct (k (i + 4)); [exact H | discriminate]).
  split; [| exact Hk].
  unfold slice. replace (i + 4 - i) with 4 by lia.
  apply run_len_prefix. lia.
Qed.

Lemma mt_opt_inv (s : list ascii) (p : ascii -> bool) (i : nat) (k : nat -> option nat)
  (e : nat) :
  mt s (ROpt (RCls p)) i k = Some e ->
  (exists c, s !! i = Some c /\ p c = true /\ k (S i) = Some e) \/ k i = Some e.
Proof.
  cbn [mt]. destruct (s !! i) as [c|] eqn:Ec; [destruct (p c) eqn:Hp |].
  - destruct (k (S i)) as [e'|] eqn:Hk; intros H.
    + left. exists c. injection H as <-. auto.
    + right. exact H.
  - intros H. right. exact H.
  - intros H. right. exact H.
Qed.

Lemma slice_single (s : list ascii) (m : nat) (c : ascii) :
  s !! m = Some c -> slice s m (S m) = [c].
Proof.
  intros H. unfold slice. replace (S m - m) with 1 by lia.
  rewrite (drop_S s c m H). reflexivity.
Qed.

Lemma slice_app (s : list ascii) (i j k : nat) :
  i <= j <= k -> slice s i k = slice s i j ++ slice s j k.
Proof.
  intros H. unfold slice.
  replace (k - i) with ((j - i) + (k - j)) by lia.
  rewrite <- take_take_drop, drop_drop.
  replace (i + (j - i)) with j by lia. reflexivity.
Qed.

(** one [\d{4}[-\s]?]: four digits, then at most one separator *)
Lemma mt_group_inv (s : list ascii) (i : nat) (k : nat -> option nat) (e : nat) :
  mt s cc_group i k = Some e ->
  exists j, card_group (slice s i (i + 4)) /\ card_sep (slice s (i + 4) j) /\
            i + 4 <= j /\ k j = Some e.
Proof.
  unfold cc_group. rewrite FilterFacts.mt_seq. intros H.
  apply mt_d4_inv in H as [Hg H].
  apply mt_opt_inv in H as [(c & Hc & Hp & Hk) | Hk].
  - exists (S (i + 4)). split; [exact Hg |].
    split; [right; exists c; split; [apply slice_single, Hc | exact Hp] |].
    split; [lia | exact Hk].
  - exists (i + 4). split; [exact Hg |].
    split; [left; unfold slice; rewrite Nat.sub_diag; reflexivity |].
    split; [lia | exact Hk].
Qed.

Lemma group_lookup (s : list ascii) (i : nat) :
  card_group (slice s i (i + 4)) ->
  forall j, j < 4 -> exists c, s !! (i + j) = Some c /\ is_digit c = true.
Proof.
  intros [Hl Hd] j Hj. unfold slice in Hl, Hd. replace (i + 4 - i) with 4 in Hl, Hd by lia.
  destruct (take 4 (drop i s) !! j) as [c|] eqn:E; [| apply lookup_ge_None in E; lia].
  exists c. split.
  - rewrite lookup_take_lt in E by lia. rewrite lookup_drop in E. exact E.
  - rewrite Forall_lookup in Hd. exact (Hd j c E).
Qed.

(** a match of the credit_card pattern covers a card sequence, and the
    characters just before and just after it are non-word characters *)
Lemma cc_sound (s : list ascii) (b e : nat) :
  match_at s credit_card_re b = Some e ->
  exists pre post, s = pre ++ slice s b e ++ post /\ card_seq (slice s b e) /\
                   ends_nonword pre /\ starts_nonword post.
Proof.
  unfold match_at, credit_card_re, rcat. cbn [fold_right].
  rewrite FilterFacts.mt_seq.
  change (mt s RWordB b ?k) with (if word_boundary s b then k b else None).
  destruct (word_boundary s b) eqn:Wb; [| discriminate].
  rewrite FilterFacts.mt_seq. intros H.
  apply mt_group_inv in H as (j1 & G1 & S1 & L1 & H). cbv beta in H.
  rewrite FilterFacts.mt_seq in H.
  apply mt_group_inv in H as (j2 & G2 & S2 & L2 & H). cbv beta in H.
  rewrite FilterFacts.mt_seq in H.
  apply mt_group_inv in H as (j3 & G3 & S3 & L3 & H). cbv beta in H.
  rewrite FilterFacts.mt_seq in H.
  apply mt_d4_inv in H as [G4 H]. cbv beta in H.
  rewrite FilterFacts.mt_seq in H.
  change (mt s RWordB (j3 + 4) ?k) with (if word_boundary s (j3 + 4) then k (j3 + 4) else None)
    in H.
  destruct (word_boundary s (j3 + 4)) eqn:We; [| discriminate].
  cbn [mt] in H. injection H as <-.
  destruct (group_lookup s b G1 0 ltac:(lia)) as [c0 [Hc0 Hd0]].
  destruct (group_lookup s j3 G4 3 ltac:(lia)) as [c3 [Hc3 Hd3]].
  rewrite Nat.add_0_r in Hc0.
  assert (Hlen : j3 + 4 <= length s).
  { pose proof (lookup_lt_Some _ _ _ Hc3). lia. }
  exists (take b s), (drop (j3 + 4) s). split; [| split; [| split]].
  - assert (E1 : drop b s = slice s b (j3 + 4) ++ drop (j3 + 4) s).
    { unfold slice. rewrite <- (take_drop (j3 + 4 - b) (drop b s)) at 1.
      f_equal. rewrite drop_drop. f_equal. lia. }
    rewrite <- E1. symmetry. apply take_drop.
  - exists (slice s b (b + 4)), (slice s (b + 4) j1), (slice s j1 (j1 + 4)),
      (slice s (j1 + 4) j2), (slice s j2 (j2 + 4)), (slice s (j2 + 4) j3),
      (slice s j3 (j3 + 4)).
    split; [| tauto].
    rewrite (slice_app s b (b + 4) (j3 + 4)) by lia.
    rewrite (slice_app s (b + 4) j1 (j3 + 4)) by lia.
    rewrite (slice_app s j1 (j1 + 4) (j3 + 4)) by lia.
    rewrite (slice_app s (j1 + 4) j2 (j3 + 4)) by lia.
    rewrite (slice_app s j2 (j2 + 4) (j3 + 4)) by lia.
    rewrite (slice_app s (j2 + 4) j3 (j3 + 4)) by lia.
    reflexivity.
  - unfold word_boundary, word_at in Wb. rewrite Hc0, (digit_word _ Hd0) in Wb.
    unfold ends_nonword. rewrite last_lookup.
    pose proof (lookup_lt_Some _ _ _ Hc0) as Hb.
    rewrite length_take_le by lia.
    destruct b as [|j]; [reflexivity |].
    cbn [pred]. rewrite lookup_take_lt by lia.
    destruct (s !! j) as [c|] eqn:Ej; [| apply lookup_ge_None in Ej; lia].
    destruct (is_word c); [discriminate | reflexivity].
  - unfold word_boundary, word_at in We.
    replace (j3 + 4) with (S (j3 + 3)) in We by lia.
    rewrite Hc3, (digit_word _ Hd3) in We.
    replace (S (j3 + 3)) with (j3 + 4) in We by lia.
    destruct (s !! (j3 + 4)) as [c|] eqn:Ec.
    + rewrite (drop_S s c _ Ec). cbn [starts_nonword].
      destruct (is_word c); [discriminate | reflexivity].
    + rewrite drop_ge; [exact I |]. apply lookup_ge_None in Ec. exact Ec.
Qed.

Lemma search_from_match (s : list ascii) (r : rx) (fuel : nat) :
  forall i b e, search_from s r i fuel = Some (b, e) -> match_at s r b = Some e.
Proof.
  induction fuel as [|f IH]; intros i b e; cbn [search_from];
    destruct (match_at s r i) as [e'|] eqn:Em.
  - intros H. injection H as <- <-. exact Em.
  - discriminate.
  - intros H. injection H as <- <-. exact Em.
  - apply IH.
Qed.

Lemma finditer_from_match (s : list ascii) (r : rx) (fuel : nat) :
  forall i b e, In (b, e) (finditer_from s r i fuel) -> match_at s r b = Some e.
Proof.
  induction fuel as [|f IH]; intros i b e; cbn [finditer_from]; [intros [] |].
  unfold search. destruct (search_from s r i (length s - i)) as [[b' e']|] eqn:Es;
    [| intros []].
  intros [H | H].
  - injection H as <- <-. exact (search_from_match _ _ _ _ _ _ Es).
  - exact (IH _ _ _ H).
Qed.

(** every credit_card finding of [detect_sensitive_data], in any text, is a
    card sequence with a non-word character (or the end of the text) on
    each side *)
Lemma detect_card_sound (s : list ascii) (f : string * list ascii) :
  f ∈ detect_sensitive_data s -> f.1 = "credit_card"%string ->
  exists pre post, s = pre ++ f.2 ++ post /\ card_seq f.2 /\
                   ends_nonword pre /\ starts_nonword post.
Proof.
  unfold detect_sensitive_data, patterns. cbn [map concat].
  rewrite list_elem_of_In. intros Hin Hk.
  apply in_app_iff in Hin as [Hin | Hin].
  - apply in_map_iff in Hin as [[b e] [<- Hbe]]. cbn [fst snd].
    apply cc_sound. exact (finditer_from_match _ _ _ _ _ _ Hbe).
  - exfalso.
    repeat (apply in_app_iff in Hin as [Hin | Hin];
            [apply in_map_iff in Hin as [[b e] [<- _]]; cbn in Hk; discriminate |]).
    exact Hin.
Qed.

Lemma redact_first_step (t : list ascii) :
  redact_sensitive_data t
  = redact_with (tail patterns) (re_sub credit_card_re (placeholder "credit_card") t).
Proof.
  unfold redact_sensitive_data. rewrite patterns_head at 1. apply redact_with_cons.
Qed.

(** C6 (amended).  Every credit_card finding of detect, in any text, is
    exactly 16 digits in four groups of 4, each of the first three groups
    optionally followed by one [-] or whitespace character, with a non-word
    character or the end of the text on each side; so runs of 13 to 15
    digits, and runs glued to a word character, are never found.  For a
    text [a0 ++ d1 ++ a1 ++ ... ++ dn ++ an] where every [di] is such a
    sequence, [a0] contains no digit and ends with a non-word character,
    and every later [ai] contains no digit, starts and ends with a non-word
    character, and is not empty unless it is the last, the credit_card
    findings of detect are exactly [d1, ..., dn] in order, and the first
    step of redact (the credit_card substitution) replaces every [di] by
    [REDACTED_CREDIT_CARD], the six later substitutions then running on
    that text. *)
Theorem card_sequences_found_and_redacted (a0 : list ascii)
  (ps : list (list ascii * list ascii)) :
  (forall s f, f ∈ detect_sensitive_data s -> f.1 = "credit_card"%string ->
     exists pre post, s = pre ++ f.2 ++ post /\ card_seq f.2 /\
                      ends_nonword pre /\ starts_nonword post) /\
  (no_digit a0 -> ends_nonword a0 -> gaps_ok ps ->
   filter (fun f : string * list ascii => f.1 = "credit_card"%string)
          (detect_sensitive_data (layout a0 ps))
   = map (fun dd => ("credit_card"%string, dd)) (map fst ps) /\
   redact_sensitive_data (layout a0 ps)
   = redact_with (tail patterns) (layout_replaced (placeholder "credit_card") a0 ps)).
Proof.
  split; [exact detect_card_sound |].
  intros Ha0 Hend Hg.
  pose proof (gaps_length ps Hg) as Hlen.
  split.
  - assert (Hf : finditer (layout a0 ps) credit_card_re = card_spans 0 a0 ps).
    { unfold finditer, layout.
      apply (finditer_cards ps [] a0); [exact Hg | exact Ha0 | intros _; exact Hend |].
      rewrite length_app. lia. }
    unfold detect_sensitive_data, patterns. cbn [map concat].
    rewrite !filter_app.
    rewrite (filter_card_kind (slice (layout a0 ps))).
    rewrite !filter_other_kind by discriminate.
    rewrite !app_nil_r, Hf. f_equal.
    apply (slice_spans ps [] a0).
  - rewrite redact_first_step. f_equal.
    unfold re_sub, layout, layout_replaced.
    apply (sub_cards _ ps [] a0); [exact Hg | exact Ha0 | intros _; exact Hend |].
    rewrite length_app. lia.
Qed.

Lemma card_sequences_found_and_redacted_witness :
  (no_digit (T "card: ") /\ ends_nonword (T "card: ") /\
   gaps_ok [(T "1234-5678 9012 3456", T " and "); (T "4111111111111111", T ".")]) /\
  (filter (fun f : string * list ascii => f.1 = "credit_card"%string)
     (detect_sensitive_data
        (layout (T "card: ")
           [(T "1234-5678 9012 3456", T " and "); (T "4111111111111111", T ".")]))
   = map (fun dd => ("credit_card"%string, dd))
       (map fst [(T "1234-5678 9012 3456", T " and "); (T "4111111111111111", T ".")]) /\
   redact_sensitive_data
     (layout (T "card: ")
        [(T "1234-5678 9012 3456", T " and "); (T "4111111111111111", T ".")])
   = redact_with (tail patterns)
       (layout_replaced (placeholder "credit_card") (T "card: ")
          [(T "1234-5678 9012 3456", T " and "); (T "4111111111111111", T ".")])).
Proof.
  assert (Ha0 : no_digit (T "card: ")) by (repeat constructor).
  assert (He : ends_nonword (T "card: ")) by (vm_compute; reflexivity).
  assert (Hg : gaps_ok [(T "1234-5678 9012 3456", T " and "); (T "4111111111111111", T ".")]).
  { cbn [gaps_ok]. split; [| split; [repeat constructor |]].
    - exists (T "1234"), (T "-"), (T "5678"), (T " "), (T "9012"), (T " "), (T "3456").
      split; [reflexivity |].
      repeat split; try (repeat constructor; fail);
        right; eexists; split; reflexivity.
    - split; [vm_compute; reflexivity |]. split; [vm_compute; reflexivity |].
      split; [discriminate |]. split; [| split; [repeat constructor |]].
      + exists (T "4111"), [], (T "1111"), [], (T "1111"), [], (T "1111").
        split; [reflexivity |].
        repeat split; try (repeat constructor; fail); left; reflexivity.
      + split; [vm_compute; reflexivity |]. split; [vm_compute; reflexivity |].
        split; [discriminate | exact I]. }
  split; [split; [exact Ha0 | split; [exact He | exact Hg]] |].
  exact (proj2 (card_sequences_found_and_redacted _ _) Ha0 He Hg).
Defined.

(** C6 (counterexample).  A run of 13 digits is not a credit_card
    finding.  Neither is a 16-digit run glued to a letter before it or
    after it, nor either of two 16-digit runs written with nothing between
    them.  In [1234-1234 5678 9012 3456] the sequence
    [1234 5678 9012 3456], preceded by a non-word character, is not
    found: the digits before it make the match [1234-1234 5678 9012],
    and redact leaves [3456] in clear.  And in
    [token: 4111111111111111] the card is replaced by
    [REDACTED_CREDIT_CARD] and then, with its prefix, by the token
    substitution, so redact's result holds no [REDACTED_CREDIT_CARD]. *)
Lemma card_findings_limits :
  filter (fun f : string * list ascii => f.1 = "credit_card"%string)
         (detect_sensitive_data (T "4222222222222")) = [] /\
  filter (fun f : string * list ascii => f.1 = "credit_card"%string)
         (detect_sensitive_data (T "card1234567890123456")) = [] /\
  filter (fun f : string * list ascii => f.1 = "credit_card"%string)
         (detect_sensitive_data (T "1234567890123456x")) = [] /\
  filter (fun f : string * list ascii => f.1 = "credit_card"%string)
         (detect_sensitive_data (T "41111111111111114111111111111111")) = [] /\
  filter (fun f : string * list ascii => f.1 = "credit_card"%string)
         (detect_sensitive_data (T "1234-1234 5678 9012 3456"))
    = [("credit_card"%string, T "1234-1234 5678 9012")] /\
  redact_sensitive_data (T "1234-1234 5678 9012 3456") = T "[REDACTED_CREDIT_CARD] 3456" /\
  redact_sensitive_data (T "token: 4111111111111111") = T "[REDACTED_TOKEN]".
Proof. repeat split; vm_compute; reflexivity. Qed.

End CardFacts.

(** ** Redacting twice *)

Module RedactFacts.
Import Privacy.

(** C8 (amended).  Every [[REDACTED_<KIND>]] placeholder, taken on its own,
    matches none of the seven patterns: detect finds nothing in it and redact
    returns it unchanged.  (Redaction as a whole is not idempotent; see the
    counterexample below.) *)
Theorem placeholders_inert :
  Forall (fun k => detect_sensitive_data (placeholder k) = [] /\
                   redact_sensitive_data (placeholder k) = placeholder k)
         (map fst patterns).
Proof.
  cbn [map fst patterns].
  repeat apply Forall_cons_2; try apply Forall_nil_2; split; vm_compute; reflexivity.
Qed.

(** C8 (counterexample).  In [123-45-6789token:x] the SSN is not matched, for
    there is no word boundary between [9] and [t]; redacting the token puts a
    [[] there, so a second pass redacts the SSN as well. *)
Lemma redact_twice_differs :
  redact_sensitive_data (T "123-45-6789token:x") = T "123-45-6789[REDACTED_TOKEN]" /\
  redact_sensitive_data (redact_sensitive_data (T "123-45-6789token:x"))
  = T "[REDACTED_SSN][REDACTED_TOKEN]" /\
  redact_sensitive_data (redact_sensitive_data (T "123-45-6789token:x"))
  <> redact_sensitive_data (T "123-45-6789token:x").
Proof.
  split; [vm_compute; reflexivity |]. split; [vm_compute; reflexivity |].
  vm_compute. discriminate.
Qed.

End RedactFacts.

(** ** Matcher facts shared by the properties below *)

Module MatchFacts.

(** a match ends at or after its start, through the continuation *)
Lemma mt_mono (s : list ascii) (r : rx) :
  forall i k e, mt s r i k = Some e -> exists j, i <= j /\ k j = Some e.
Proof.
  induction r as [| p | r1 IH1 r2 IH2 | r1 IH1 | p g lo hi | |]; intros i k e H;
    cbn [mt] in H.
  - exists i. split; [lia | exact H].
  - destruct (s !! i); [| discriminate]. destruct (p a); [| discriminate].
    exists (S i). split; [lia | exact H].
  - destruct (IH1 _ _ _ H) as [j [Hij Hj]].
    destruct (IH2 _ _ _ Hj) as [j' [Hjj Hj']]. exists j'. split; [lia | exact Hj'].
  - destruct (mt s r1 i k) eqn:E.
    + injection H as <-. destruct (IH1 _ _ _ E) as [j [Hij Hj]]. eauto.
    + exists i. split; [lia | exact H].
  - revert H. match goal with |- (if ?c then _ else first_ok _ ?l) = _ -> _ =>
      destruct c; [discriminate |]; generalize l end.
    intros l. induction l as [|x l IHl]; cbn; [discriminate |].
    destruct (k (i + x)) eqn:E; [intros [= <-]; exists (i + x); split; [lia | exact E] | exact IHl].
  - destruct (word_boundary s i); [| discriminate]. exists i. split; [lia | exact H].
  - destruct (_ || _); [| discriminate]. exists i. split; [lia | exact H].
Qed.

Lemma match_at_mono (s : list ascii) (r : rx) (i e : nat) :
  match_at s r i = Some e -> i <= e.
Proof. intros H. apply mt_mono in H as [j [Hj [= <-]]]. exact Hj. Qed.

(** a match of [rcat rs] goes through a match of each of its parts *)
Lemma mt_rcat_part (s : list ascii) (rs : list rx) (r : rx) :
  In r rs -> forall i k e, mt s (rcat rs) i k = Some e ->
  exists j k', mt s r j k' = Some e.
Proof.
  induction rs as [|r0 rs IH]; intros Hin i k e H; [destruct Hin |].
  cbn [rcat fold_right] in H. rewrite FilterFacts.mt_seq in H.
  destruct Hin as [-> | Hin]; [eauto |].
  apply FilterFacts.mt_cont in H as [j Hj]. eapply IH; [exact Hin | exact Hj].
Qed.

Lemma search_from_bounds (s : list ascii) (r : rx) (fuel : nat) :
  forall i b e, search_from s r i fuel = Some (b, e) ->
  i <= b <= i + fuel /\ match_at s r b = Some e.
Proof.
  induction fuel as [|f IH]; intros i b e H; cbn [search_from] in H;
    destruct (match_at s r i) as [e'|] eqn:E.
  - injection H as <- <-. split; [lia | exact E].
  - discriminate.
  - injection H as <- <-. split; [lia | exact E].
  - apply IH in H as [Hb He]. split; [lia | exact He].
Qed.

Lemma search_bounds (s : list ascii) (r : rx) (i b e : nat) :
  search s r i = Some (b, e) -> i <= b <= i + (length s - i) /\ b <= e.
Proof.
  unfold search. intros H. apply search_from_bounds in H as [Hb He].
  apply match_at_mono in He. lia.
Qed.

(** with no match anywhere, [re.sub] returns its input *)
Lemma re_sub_no_match (r : rx) (repl s : list ascii) :
  (forall i, match_at s r i = None) -> re_sub r repl s = s.
Proof.
  intros H. unfold re_sub. cbn [sub_from]. unfold search.
  rewrite FilterFacts.search_from_none by exact H. reflexivity.
Qed.

(** deleting every match never makes a text longer *)
Lemma sub_from_delete_length (s : list ascii) (r : rx) (fuel : nat) :
  forall i, length (sub_from s r [] i fuel) <= length s - i.
Proof.
  induction fuel as [|f IH]; intros i; cbn [sub_from].
  - rewrite length_drop. lia.
  - destruct (search s r i) as [[b e]|] eqn:E.
    + apply search_bounds in E as [Hb Hbe].
      destruct (e =? b) eqn:Eeb.
      * apply Nat.eqb_eq in Eeb. unfold slice.
        rewrite !length_app, !length_take, !length_drop. cbn [length].
        specialize (IH (S b)). lia.
      * apply Nat.eqb_neq in Eeb. unfold slice.
        rewrite !length_app, !length_take, !length_drop. cbn [length].
        specialize (IH e). lia.
    + rewrite length_drop. lia.
Qed.

Lemma re_sub_delete_length (r : rx) (s : list ascii) :
  length (re_sub r [] s) <= length s.
Proof. unfold re_sub. pose proof (sub_from_delete_length s r (S (length s)) 0). lia. Qed.

End MatchFacts.

(** ** RequestValidator.sanitize_content *)

Module SanitizerFacts.
Import Sanitizer.

Lemma lower_lt (c : ascii) : Ascii.eqb (lower c) (lower "<") = true -> c = "<"%char.
Proof. destruct c as [[] [] [] [] [] [] [] []]; vm_compute; congruence. Qed.

Lemma lower_colon (c : ascii) : Ascii.eqb (lower c) (lower ":") = true -> c = ":"%char.
Proof. destruct c as [[] [] [] [] [] [] [] []]; vm_compute; congruence. Qed.

Lemma script_needs_lt (s : list ascii) (i e : nat) :
  match_at s script_re i = Some e -> "<"%char ∈ s.
Proof.
  unfold match_at, script_re. intros H.
  apply (MatchFacts.mt_rcat_part s _ (lit_ci "<script")) in H as [j [k H]];
    [| left; reflexivity].
  unfold lit_ci in H.
  apply (MatchFacts.mt_rcat_part s _ (RCls (fun c => Ascii.eqb (lower c) (lower "<"))))
    in H as [j' [k' H]]; [| cbn; left; reflexivity].
  apply FilterFacts.mt_cls in H as [c [Hc Hp]]. apply lower_lt in Hp as ->.
  eapply list_elem_of_lookup_2, Hc.
Qed.

Lemma javascript_needs_colon (s : list ascii) (i e : nat) :
  match_at s javascript_re i = Some e -> ":"%char ∈ s.
Proof.
  unfold match_at, javascript_re, lit_ci. intros H.
  apply (MatchFacts.mt_rcat_part s _ (RCls (fun c => Ascii.eqb (lower c) (lower ":"))))
    in H as [j' [k' H]]; [| cbn; do 10 right; left; reflexivity].
  apply FilterFacts.mt_cls in H as [c [Hc Hp]]. apply lower_colon in Hp as ->.
  eapply list_elem_of_lookup_2, Hc.
Qed.

Lemma not_elem_of_allowed (c : ascii) (s : list ascii) :
  Forall (fun x => allowed x = true) s -> allowed c = false -> c ∉ s.
Proof.
  intros Hs Hc Hin. rewrite Forall_forall in Hs. rewrite (Hs c Hin) in Hc. discriminate.
Qed.

Lemma drop_special_all (s : list ascii) :
  Forall (fun x => allowed x = true) s -> drop_special s = s.
Proof.
  induction 1 as [|c s Hc _ IH]; [reflexivity |]. unfold drop_special in *.
  rewrite filter_cons_True by (rewrite Hc; exact I). f_equal. exact IH.
Qed.

Lemma lstrip_head (s : list ascii) :
  match lstrip s with [] => True | c :: _ => is_space c = false end.
Proof.
  induction s as [|c s IH]; cbn; [exact I |].
  destruct (is_space c) eqn:E; [exact IH | exact E].
Qed.

Lemma lstrip_fixed (x : list ascii) :
  match x with [] => True | c :: _ => is_space c = false end -> lstrip x = x.
Proof. destruct x as [|c x]; cbn; [reflexivity |]. intros ->. reflexivity. Qed.

Lemma lstrip_snoc (l : list ascii) (c : ascii) :
  is_space c = false -> lstrip (l ++ [c]) = lstrip l ++ [c].
Proof.
  intros Hc. induction l as [|x l IH]; cbn; [rewrite Hc; reflexivity |].
  destruct (is_space x); [exact IH | reflexivity].
Qed.

Lemma lstrip_length (s : list ascii) : length (lstrip s) <= length s.
Proof. induction s as [|c s IH]; cbn; [lia |]. destruct (is_space c); cbn; lia. Qed.

(** [strip()] leaves no whitespace at either end *)
Lemma strip_stripped (s : list ascii) :
  lstrip (strip s) = strip s /\ lstrip (rev (strip s)) = rev (strip s).
Proof.
  unfold strip. rewrite rev_involutive. split.
  - pose proof (lstrip_head s) as Hy. destruct (lstrip s) as [|c t] eqn:Ey; [reflexivity |].
    cbn [rev]. rewrite lstrip_snoc by exact Hy. rewrite rev_app_distr. cbn [rev app].
    apply lstrip_fixed. exact Hy.
  - apply lstrip_fixed, lstrip_head.
Qed.

Lemma strip_fixed (x : list ascii) :
  lstrip x = x -> lstrip (rev x) = rev x -> strip x = x.
Proof. intros H1 H2. unfold strip. rewrite H1, H2. apply rev_involutive. Qed.

Lemma sanitize_length (s : list ascii) : length (sanitize_content s) <= length s.
Proof.
  unfold sanitize_content, strip, drop_special.
  rewrite length_rev.
  pose proof (lstrip_length (rev (lstrip (filter allowed
                (re_sub javascript_re [] (re_sub script_re [] s)))))) as H1.
  rewrite length_rev in H1.
  pose proof (lstrip_length (filter allowed (re_sub javascript_re [] (re_sub script_re [] s)))).
  pose proof (length_filter allowed (re_sub javascript_re [] (re_sub script_re [] s))).
  pose proof (MatchFacts.re_sub_delete_length javascript_re (re_sub script_re [] s)).
  pose proof (MatchFacts.re_sub_delete_length script_re s).
  lia.
Qed.

(** X1: [sanitize_content] returns text made only of the kept characters,
    with no whitespace at either end, and sanitizing that text again
    changes nothing. *)
Theorem sanitize_idempotent (s : list ascii) :
  Forall (fun c => allowed c = true) (sanitize_content s) /\
  match sanitize_content s with [] => True | c :: _ => is_space c = false end /\
  match rev (sanitize_content s) with [] => True | c :: _ => is_space c = false end /\
  sanitize_content (sanitize_content s) = sanitize_content s.
Proof.
  pose proof (FilterFacts.sanitize_allowed s) as Ha.
  assert (Hst : lstrip (sanitize_content s) = sanitize_content s /\
                lstrip (rev (sanitize_content s)) = rev (sanitize_content s))
    by apply strip_stripped.
  destruct Hst as [H1 H2].
  split; [exact Ha |]. split; [rewrite <- H1; apply lstrip_head |].
  split; [rewrite <- H2; apply lstrip_head |].
  set (x := sanitize_content s) in *.
  unfold sanitize_content at 1.
  rewrite (MatchFacts.re_sub_no_match script_re [] x).
  2:{ intros i. destruct (match_at x script_re i) eqn:E; [| reflexivity].
      exfalso. apply script_needs_lt in E. revert E. apply not_elem_of_allowed; [exact Ha | reflexivity]. }
  rewrite (MatchFacts.re_sub_no_match javascript_re [] x).
  2:{ intros i. destruct (match_at x javascript_re i) eqn:E; [| reflexivity].
      exfalso. apply javascript_needs_colon in E. revert E. apply not_elem_of_allowed; [exact Ha | reflexivity]. }
  rewrite drop_special_all by exact Ha.
  apply strip_fixed; assumption.
Qed.

End SanitizerFacts.

(** ** RequestValidator.validate_chat_request *)

Module ValidatedFacts.
Import Validator.

Lemma validate_message_ok (mx : nat) (m : jval) (r c : list ascii) :
  validate_message mx m = inr (r, c) ->
  r ∈ allowed_roles /\ length c <= mx.
Proof.
  unfold validate_message. destruct m as [| | | | | |kv]; try discriminate.
  destruct (dget_or kv "role" JNone) as [| | | |r0| |]; try discriminate.
  case_bool_decide as Hr; [| discriminate].
  destruct (py_len _) as [n|] eqn:En; [| discriminate].
  destruct (mx <? n) eqn:Elt; [discriminate |].
  destruct (dget_or kv "content" (JStr [])) as [| | | |c0| |] eqn:Ec; try discriminate.
  intros [= <- <-]. split; [exact Hr |].
  cbn in En. injection En as <-. apply Nat.ltb_ge in Elt.
  pose proof (SanitizerFacts.sanitize_length c0). lia.
Qed.

Lemma validate_messages_ok (mx : nat) (ms : list jval) :
  forall vms, validate_messages mx ms = inr vms ->
  length vms = length ms /\
  Forall (fun rc => rc.1 ∈ allowed_roles /\ length rc.2 <= mx) vms.
Proof.
  induction ms as [|m ms IH]; intros vms H; cbn in H.
  - injection H as <-. split; [reflexivity | constructor].
  - destruct (validate_message mx m) as [|[r c]] eqn:Em; [discriminate |].
    destruct (validate_messages mx ms) as [|vms'] eqn:Ems; [discriminate |].
    injection H as <-. destruct (IH vms' eq_refl) as [Hl Hf].
    split; [cbn; lia |]. constructor; [| exact Hf].
    apply (validate_message_ok mx m r c Em).
Qed.

(** X2: a request accepted by [validate_chat_request] has at most 100
    messages, each with a role among user, assistant and system, and each
    (sanitized) content at most [MAX_MESSAGE_LENGTH] characters long. *)
Theorem validated_request_bounds (mx : nat) (rd : list (string * jval)) (vr : validated) :
  validate_chat_request mx rd = inr vr ->
  length (v_messages vr) <= max_messages /\
  Forall (fun rc => rc.1 ∈ allowed_roles /\ length rc.2 <= mx) (v_messages vr).
Proof.
  intros H. unfold validate_chat_request in H.
  destruct (dget_or rd "model" (JStr [])); try discriminate.
  destruct (negb _); [discriminate |].
  destruct (dget_or rd "messages" (JList [])) as [| | | | |l|]; try discriminate.
  destruct (max_messages <? length l) eqn:Elen; [discriminate |].
  destruct (validate_messages mx l) as [|vms] eqn:Ev; [discriminate |].
  apply validate_messages_ok in Ev as [Hl Hf].
  assert (Hm : v_messages vr = vms).
  { repeat match goal with
           | H : context [match ?x with _ => _ end] |- _ => destruct x
           end; try discriminate; injection H as <-; reflexivity. }
  rewrite Hm. apply Nat.ltb_ge in Elen. split; [lia | exact Hf].
Qed.

Lemma validated_request_bounds_witness :
  validate_chat_request 10
    [("model", JStr (T "m")); ("messages", JList [JDict [("role", JStr (T "user"));
                                                         ("content", JStr (T "hi"))]])]
  = inr {| v_model := T "m"; v_messages := [(T "user", T "hi")];
           v_max_tokens := None; v_temperature := None |} /\
  length [(T "user", T "hi")] <= max_messages /\
  Forall (fun rc : list ascii * list ascii => rc.1 ∈ allowed_roles /\ length rc.2 <= 10)
         [(T "user", T "hi")].
Proof.
  assert (H : validate_chat_request 10
    [("model", JStr (T "m")); ("messages", JList [JDict [("role", JStr (T "user"));
                                                         ("content", JStr (T "hi"))]])]
    = inr {| v_model := T "m"; v_messages := [(T "user", T "hi")];
             v_max_tokens := None; v_temperature := None |}) by (vm_compute; reflexivity).
  split; [exact H |]. exact (validated_request_bounds _ _ _ H).
Defined.

End ValidatedFacts.

(** ** The model-name pattern [^[a-zA-Z0-9_-]+$] *)

Module ModelNameFacts.
Import Validator.

Lemma run_len_le (p : ascii -> bool) (l : list ascii) : run_len p l <= length l.
Proof. induction l as [|c l IH]; cbn; [lia |]. destruct (p c); cbn; lia. Qed.

Lemma run_len_lookup (p : ascii -> bool) (l : list ascii) (j : nat) :
  j < run_len p l -> exists x, l !! j = Some x /\ p x = true.
Proof.
  revert j. induction l as [|c l IH]; intros j Hj; cbn in Hj; [lia |].
  destruct (p c) eqn:E; [| lia].
  destruct j as [|j]; [exists c; split; [reflexivity | exact E] |].
  apply IH. lia.
Qed.

Lemma run_len_stop (p : ascii -> bool) (l : list ascii) :
  run_len p l < length l -> exists x, l !! run_len p l = Some x /\ p x = false.
Proof.
  induction l as [|c l IH]; intros H; cbn in H; [lia |].
  cbn. destruct (p c) eqn:E; cbn in H |- *.
  - apply IH. lia.
  - exists c. split; [reflexivity | exact E].
Qed.

Lemma run_len_all (p : ascii -> bool) (l : list ascii) :
  Forall (fun c => p c = true) l -> run_len p l = length l.
Proof. induction 1 as [|c l Hc _ IH]; cbn; [reflexivity |]. rewrite Hc. f_equal. exact IH. Qed.

Lemma run_len_take (p : ascii -> bool) (l : list ascii) :
  Forall (fun c => p c = true) (take (run_len p l) l).
Proof.
  induction l as [|c l IH]; cbn; [constructor |].
  destruct (p c) eqn:E; cbn; [constructor; [exact E | exact IH] | constructor].
Qed.

Lemma first_ok_some (f : nat -> option nat) (l : list nat) (e : nat) :
  first_ok f l = Some e -> exists x, In x l /\ f x = Some e.
Proof.
  induction l as [|x l IH]; cbn; [discriminate |].
  destruct (f x) eqn:E; [intros [= <-]; exists x; split; [left; reflexivity | exact E] |].
  intros H. destruct (IH H) as [y [Hy Hf]]. exists y. split; [right; exact Hy | exact Hf].
Qed.

Lemma newline_not_class : model_class "010"%char = false.
Proof. reflexivity. Qed.

Lemma run_len_stop_nl (l : list ascii) :
  Forall (fun c => model_class c = true) l ->
  run_len model_class (l ++ ["010"%char]) = length l.
Proof.
  induction 1 as [|c l Hc _ IH]; [reflexivity |].
  cbn. rewrite Hc. f_equal. exact IH.
Qed.

Lemma model_re_unfold (s : list ascii) :
  match_at s model_re 0 =
  let n := run_len model_class s in
  if n <? 1 then None
  else first_ok (fun c => if (c =? length s) ||
                             ((S c =? length s) && bool_decide (s !! c = Some "010"%char))
                          then Some c else None)
                (rev (seq 1 (S (n - 1)))).
Proof. reflexivity. Qed.

(** the names [re.match(r"^[a-zA-Z0-9_-]+$", name)] accepts: one or more
    characters of the class, then at most one final newline *)
Lemma model_re_iff (s : list ascii) :
  is_Some (match_at s model_re 0) <->
  exists m, m <> [] /\ Forall (fun c => model_class c = true) m /\
            (s = m \/ s = m ++ ["010"%char]).
Proof.
  rewrite model_re_unfold. cbv zeta.
  pose proof (run_len_le model_class s) as Hle.
  set (n := run_len model_class s) in *.
  split.
  - destruct (n <? 1) eqn:En; [intros [? [=]] |]. apply Nat.ltb_ge in En.
    intros [e He]. apply first_ok_some in He as [c [Hc Hf]].
    apply in_rev, in_seq in Hc.
    exists (take n s). split; [| split; [apply run_len_take |]].
    { intros Ht. apply (f_equal length) in Ht. rewrite length_take in Ht. cbn in Ht. lia. }
    destruct (c =? length s) eqn:E1; cbn [orb andb] in Hf.
    + apply Nat.eqb_eq in E1. left. rewrite take_ge by lia. reflexivity.
    + destruct (S c =? length s) eqn:E2; cbn [orb andb] in Hf; [| discriminate].
      case_bool_decide as Hnl; [| discriminate].
      apply Nat.eqb_eq in E2. right.
      assert (Hcn : c = n).
      { destruct (Nat.lt_ge_cases c n) as [Hlt | Hge]; [| lia].
        destruct (run_len_lookup model_class s c Hlt) as [x [Hx Hp]].
        rewrite Hnl in Hx. injection Hx as <-. discriminate Hp. }
      subst c. rewrite <- (take_drop n s) at 1. f_equal.
      assert (Hlen : length (drop n s) = 1) by (rewrite length_drop; lia).
      rewrite <- (Nat.add_0_r n) in Hnl. rewrite <- lookup_drop in Hnl.
      destruct (drop n s) as [|x [|y t]]; cbn in Hlen, Hnl; try lia.
      injection Hnl as ->. reflexivity.
  - intros (m & Hne & Hm & Hs).
    destruct m as [|c0 m0]; [contradiction |].
    assert (Hn : n = length (c0 :: m0)).
    { subst n. destruct Hs as [-> | ->]; [apply run_len_all, Hm |].
      apply run_len_stop_nl, Hm. }
    rewrite Hn. cbn [length]. replace (S (length m0) <? 1) with false by reflexivity.
    replace (S (S (length m0) - 1)) with (S (length m0)) by lia.
    replace (seq 1 (S (length m0))) with (seq 1 (length m0) ++ [S (length m0)])
      by (rewrite seq_S; reflexivity).
    rewrite rev_app_distr. cbn [rev app first_ok].
    destruct Hs as [-> | ->].
    + cbn [length]. rewrite Nat.eqb_refl. eexists; reflexivity.
    + rewrite length_app. cbn [length].
      replace (S (length m0) =? S (length m0) + 1) with false by (symmetry; apply Nat.eqb_neq; lia).
      replace (S (S (length m0)) =? S (length m0) + 1) with true by (symmetry; apply Nat.eqb_eq; lia).
      rewrite bool_decide_true; [cbn [orb andb]; eexists; reflexivity |].
      change (c0 :: m0 ++ ["010"%char]) with ((c0 :: m0) ++ ["010"%char]).
      replace (S (length m0)) with (length (c0 :: m0) + 0) by (cbn; lia).
      rewrite CardFacts.lookup_after. reflexivity.
Qed.

(** the per-message checks never report the model error *)
Lemma validate_message_not_model (mx : nat) (m : jval) (e : verr) :
  validate_message mx m = inl e -> e <> InvalidModel.
Proof.
  unfold validate_message. intros H. repeat case_match; simplify_eq; discriminate.
Qed.

Lemma validate_messages_not_model (mx : nat) (ms : list jval) (e : verr) :
  validate_messages mx ms = inl e -> e <> InvalidModel.
Proof.
  induction ms as [|m ms IH]; cbn; [discriminate |].
  destruct (validate_message mx m) as [e'|] eqn:Em.
  - intros [= <-]. eapply validate_message_not_model, Em.
  - destruct (validate_messages mx ms) as [e'|]; [intros [= <-]; apply IH; reflexivity | discriminate].
Qed.

(** X3: when the request's model is a string, [validate_chat_request]
    fails with "Invalid model name format" exactly when the model is not
    one or more of the characters [a-zA-Z0-9_-] followed by at most one
    final newline; an accepted request keeps the model as given, so a
    trailing newline is passed on. *)
Theorem model_check_exact (mx : nat) (rd : list (string * jval)) (model : list ascii) :
  dget_or rd "model" (JStr []) = JStr model ->
  (validate_chat_request mx rd = inl InvalidModel <->
   ~ exists m, m <> [] /\ Forall (fun c => model_class c = true) m /\
               (model = m \/ model = m ++ ["010"%char])) /\
  (forall vr, validate_chat_request mx rd = inr vr -> v_model vr = model).
Proof.
  intros Hm. rewrite <- model_re_iff. unfold validate_chat_request. rewrite Hm.
  case_bool_decide as Hok; cbn [negb].
  - split.
    + split; [| intros Hn; contradiction]. intros H. exfalso. revert H.
      destruct (dget_or rd "messages" (JList [])); try discriminate.
      destruct (max_messages <? length l); [discriminate |].
      destruct (validate_messages mx l) as [e|] eqn:Ev.
      * intros [= ->]. eapply validate_messages_not_model; [exact Ev | reflexivity].
      * repeat case_match; discriminate.
    + intros vr. repeat case_match; try discriminate. all: intros [= <-]; reflexivity.
  - split; [split; [intros _; exact Hok | reflexivity] | intros vr H; discriminate].
Qed.

Lemma model_check_exact_witness :
  dget_or [("model", JStr (T "gpt" ++ ["010"%char]))] "model" (JStr [])
    = JStr (T "gpt" ++ ["010"%char]) /\
  (validate_chat_request 10 [("model", JStr (T "gpt" ++ ["010"%char]))] = inl InvalidModel <->
   ~ exists m, m <> [] /\ Forall (fun c => model_class c = true) m /\
               (T "gpt" ++ ["010"%char] = m \/ T "gpt" ++ ["010"%char] = m ++ ["010"%char])) /\
  (forall vr, validate_chat_request 10 [("model", JStr (T "gpt" ++ ["010"%char]))] = inr vr ->
              v_model vr = T "gpt" ++ ["010"%char]).
Proof.
  assert (H : dget_or [("model", JStr (T "gpt" ++ ["010"%char]))] "model" (JStr [])
              = JStr (T "gpt" ++ ["010"%char])) by reflexivity.
  split; [exact H | exact (model_check_exact 10 _ _ H)].
Defined.

End ModelNameFacts.

(** ** The two chat endpoints over all requests *)

Module ChatFacts.
Import Validator Orchestrator.

(** [validate_chat_request] refuses a string model the pattern refuses *)
Lemma model_check_fail (mx : nat) (rd : list (string * jval)) (model : list ascii) :
  dget_or rd "model" (JStr []) = JStr model ->
  ~ is_Some (match_at model model_re 0) ->
  validate_chat_request mx rd = inl InvalidModel.
Proof.
  intros Hm Hn. unfold validate_chat_request. rewrite Hm, bool_decide_false by exact Hn.
  reflexivity.
Qed.

(** the fixed texts of the error responses of /api/chat *)
Definition chat_error_texts : list string :=
  ["GaiaNet not configured"; "Invalid JSON"; "Internal server error";
   "Privacy violation detected"; "Invalid request format"; "Model not available";
   "Service temporarily unavailable"; "Request failed"]%string.

(** what a run of /api/chat does: either it answers without calling the
    provider, with status 400 or 500 and a fixed or validation error, or
    the request validates, passes the privacy check, and is sent once *)
Local Ltac fixed_err :=
  left; split; [reflexivity |]; split; [first [left; reflexivity | right; reflexivity] |];
  first [ left; eexists; reflexivity
        | right; eexists; split; [| reflexivity]; unfold chat_error_texts;
          repeat first [apply list_elem_of_here | apply list_elem_of_further] ].

Lemma chat_call_inv (cfg : config) (up : up_req -> upstream_exc + completion)
  (d : option jval) :
  (fst (chat_completion cfg up d) = [] /\
   (status (snd (chat_completion cfg up d)) = 400 \/
    status (snd (chat_completion cfg up d)) = 500) /\
   ((exists e, body_of (snd (chat_completion cfg up d)) = BError (MsgValidation e)) \/
    (exists m, m ∈ chat_error_texts /\
               body_of (snd (chat_completion cfg up d)) = BError (MsgText (T m))))) \/
  exists kv vr rq res,
    d = Some (JDict kv) /\
    validate_chat_request (max_len cfg)
      ([("model", dget_or kv "model" (JStr (client_model cfg)));
        ("messages", match dget kv "message" with
                     | Some m => JList [JDict [("role", JStr (T "user")); ("content", m)]]
                     | None => dget_or kv "messages" (JList [])
                     end)] ++
       match dget kv "max_tokens" with Some m => [("max_tokens", m)] | None => [] end ++
       match dget kv "temperature" with Some t => [("temperature", t)] | None => [] end)
      = inr vr /\
    (privacy_enabled cfg = true ->
     Privacy.validate_request_privacy (map snd (v_messages vr)) = []) /\
    client_chat_completion cfg up (v_messages vr) (v_model vr) (kwargs_of vr) = (rq, res) /\
    chat_completion cfg up d =
      ([rq], match res with
             | inl (PValueError m) => {| status := 400; body_of := BError (MsgText m) |}
             | inl (PRuntimeError m) => {| status := 500; body_of := BError (MsgText m) |}
             | inr resp =>
                 {| status := 200;
                    body_of := BResponse
                                 (if privacy_enabled cfg
                                  then Privacy.redact_sensitive_data (default [] (c_content resp))
                                  else default [] (c_content resp))
                                 (c_model resp) |}
             end).
Proof.
  unfold chat_completion.
  destruct (configured cfg); cbn [negb]; [| fixed_err].
  destruct d as [d|]; [| fixed_err].
  destruct (truthy d); cbn [negb]; [| fixed_err].
  destruct d as [| | | | | |kv]; try fixed_err.
  cbv zeta.
  destruct (validate_chat_request _ _) as [e|vr] eqn:Ev; [destruct e; fixed_err |].
  destruct (privacy_enabled cfg && _) eqn:Ep; [fixed_err |].
  destruct (client_chat_completion cfg up _ _ _) as [rq res] eqn:Ec.
  right. exists kv, vr, rq, res. split; [reflexivity |]. split; [exact Ev |].
  split.
  { intros Hp. rewrite Hp in Ep. cbn [andb] in Ep.
    apply negb_false_iff, bool_decide_eq_true in Ep. exact Ep. }
  split; [exact Ec |].
  destruct res as [[m|m]|resp]; reflexivity.
Qed.

Lemma privacy_clean (cs : list (list ascii)) :
  Privacy.validate_request_privacy cs = [] ->
  Forall (fun c => Privacy.detect_sensitive_data c = []) cs.
Proof.
  unfold Privacy.validate_request_privacy.
  assert (G : forall (f : nat -> list ascii -> list (nat * list string)),
    (forall i c, f i c = [] -> Privacy.detect_sensitive_data c = []) ->
    concat (imap f cs) = [] -> Forall (fun c => Privacy.detect_sensitive_data c = []) cs).
  { induction cs as [|c cs IH]; intros f Hf H; [constructor |].
    rewrite imap_cons in H. cbn [concat] in H. apply app_eq_nil in H as [H1 H2].
    constructor; [apply (Hf 0), H1 |].
    apply (IH (fun i => f (S i))); [intros i; apply Hf | exact H2]. }
  apply G. intros i c. unfold Privacy.violation_of.
  destruct (Privacy.detect_sensitive_data c); [reflexivity | discriminate].
Qed.

Lemma validate_user_message (mx : nat) (m : list ascii) :
  validate_messages mx [JDict [("role", JStr (T "user")); ("content", JStr m)]]
  = if mx <? length m then inl TooLong
    else inr [(T "user", Sanitizer.sanitize_content m)].
Proof.
  unfold validate_messages, validate_message.
  change (dget_or [("role", JStr (T "user")); ("content", JStr m)] "role" JNone)
    with (JStr (T "user")).
  change (dget_or [("role", JStr (T "user")); ("content", JStr m)] "content" (JStr []))
    with (JStr m).
  cbn [py_len]. rewrite bool_decide_true by (unfold allowed_roles; apply list_elem_of_here).
  destruct (mx <? length m); reflexivity.
Qed.

Lemma validated_messages (mx : nat) (rd : list (string * jval)) (ms : list jval)
  (vr : validated) :
  validate_chat_request mx rd = inr vr ->
  dget_or rd "messages" (JList []) = JList ms ->
  validate_messages mx ms = inr (v_messages vr).
Proof.
  intros H Hms. unfold validate_chat_request in H. rewrite Hms in H.
  destruct (dget_or rd "model" (JStr [])); try discriminate.
  destruct (negb _); [discriminate |].
  destruct (max_messages <? length ms); [discriminate |].
  destruct (validate_messages mx ms) as [|vms]; [discriminate |].
  repeat case_match; simplify_eq; reflexivity.
Qed.

(** X4: when GAIANET_MODEL is not a valid model name, a request to
    /api/chat that names no model is refused with status 400 and "Invalid
    model name format" before any upstream call: the default model goes
    through the same check as a model the client names. *)
Theorem default_model_refused (cfg : config)
  (up : up_req -> upstream_exc + completion) (kv : list (string * jval)) :
  configured cfg = true ->
  ~ (exists m, m <> [] /\ Forall (fun c => model_class c = true) m /\
               (client_model cfg = m \/ client_model cfg = m ++ ["010"%char])) ->
  kv <> [] -> dget kv "model" = None ->
  chat_completion cfg up (Some (JDict kv))
    = ([], {| status := 400; body_of := BError (MsgValidation InvalidModel) |}).
Proof.
  intros Hc Hbad Hkv Hdm. rewrite <- ModelNameFacts.model_re_iff in Hbad.
  unfold chat_completion. rewrite Hc. cbn [negb].
  destruct kv as [|kv0 kv]; [contradiction |]. cbn [truthy negb]. cbv zeta.
  replace (dget_or (kv0 :: kv) "model" (JStr (client_model cfg)))
    with (JStr (client_model cfg)) by (unfold dget_or; rewrite Hdm; reflexivity).
  rewrite (model_check_fail _ _ (client_model cfg)); [reflexivity | reflexivity | exact Hbad].
Qed.

Lemma default_model_refused_witness :
  configured {| configured := true; client_model := T "llama3.2";
                privacy_env := None; max_len := 10000 |} = true /\
  ~ (exists m, m <> [] /\ Forall (fun c => model_class c = true) m /\
               (T "llama3.2" = m \/ T "llama3.2" = m ++ ["010"%char])) /\
  [("message", JStr (T "hi"))] <> [] /\
  dget [("message", JStr (T "hi"))] "model" = None /\
  chat_completion {| configured := true; client_model := T "llama3.2";
                     privacy_env := None; max_len := 10000 |}
    (fun _ => inr {| c_content := None; c_model := T "llama3.2" |})
    (Some (JDict [("message", JStr (T "hi"))]))
    = ([], {| status := 400; body_of := BError (MsgValidation InvalidModel) |}).
Proof.
  assert (Hbad : ~ (exists m, m <> [] /\ Forall (fun c => model_class c = true) m /\
               (T "llama3.2" = m \/ T "llama3.2" = m ++ ["010"%char]))).
  { rewrite <- ModelNameFacts.model_re_iff. vm_compute. intros [? [=]]. }
  split; [reflexivity |]. split; [exact Hbad |].
  split; [discriminate |]. split; [reflexivity |].
  apply (default_model_refused
           {| configured := true; client_model := T "llama3.2";
              privacy_env := None; max_len := 10000 |}); cbn;
    [reflexivity | exact Hbad | discriminate | reflexivity].
Defined.

(** X8: when the body of /api/chat has a "message" key holding a string
    [m], the one message sent upstream is the user message
    [sanitize_content m]: the "messages" key, and the "conversation"
    history the Streamlit front end sends beside "message", are ignored. *)
Theorem message_key_wins (cfg : config) (up : up_req -> upstream_exc + completion)
  (kv : list (string * jval)) (m : list ascii) :
  dget kv "message" = Some (JStr m) ->
  Forall (fun rq => u_messages rq = [(T "user", Sanitizer.sanitize_content m)])
         (fst (chat_completion cfg up (Some (JDict kv)))).
Proof.
  intros Hm.
  destruct (chat_call_inv cfg up (Some (JDict kv)))
    as [[-> _] | (kv' & vr & rq & res & Hd & Ev & _ & Ec & ->)]; [constructor |].
  injection Hd as <-. rewrite Hm in Ev. cbn [fst]. constructor; [| constructor].
  unfold client_chat_completion in Ec. injection Ec as <- _. cbn [u_messages].
  eapply validated_messages in Ev; [| reflexivity].
  rewrite validate_user_message in Ev.
  destruct (max_len cfg <? length m); [discriminate |]. injection Ev as <-. reflexivity.
Qed.

Lemma message_key_wins_witness :
  dget Samples.body_with_history "message" = Some (JStr (T "hi")) /\
  Forall (fun rq => u_messages rq = [(T "user", Sanitizer.sanitize_content (T "hi"))])
         (fst (chat_completion Samples.cfg_default Samples.up_phone
                 (Some (JDict Samples.body_with_history)))).
Proof.
  assert (H : dget Samples.body_with_history "message" = Some (JStr (T "hi")))
    by reflexivity.
  split; [exact H | exact (message_key_wins _ _ _ _ H)].
Defined.

(** X9: with the privacy filter enabled, no message that /api/chat sends
    upstream has a finding of the sensitive-data detector. *)
Theorem chat_upstream_clean (cfg : config) (up : up_req -> upstream_exc + completion)
  (d : option jval) :
  privacy_enabled cfg = true ->
  Forall (fun rq => Forall (fun mc => Privacy.detect_sensitive_data mc.2 = [])
                           (u_messages rq))
         (fst (chat_completion cfg up d)).
Proof.
  intros Hp.
  destruct (chat_call_inv cfg up d)
    as [[-> _] | (kv & vr & rq & res & _ & _ & Hpv & Ec & ->)]; [constructor |].
  cbn [fst]. constructor; [| constructor].
  unfold client_chat_completion in Ec. injection Ec as <- _. cbn [u_messages].
  pose proof (privacy_clean _ (Hpv Hp)) as H. apply Forall_map in H. exact H.
Qed.

Lemma chat_upstream_clean_witness :
  privacy_enabled Samples.cfg_default = true /\
  Forall (fun rq => Forall (fun mc => Privacy.detect_sensitive_data mc.2 = [])
                           (u_messages rq))
         (fst (chat_completion Samples.cfg_default Samples.up_phone
                 (Some (JDict Samples.body_with_history)))).
Proof.
  assert (H : privacy_enabled Samples.cfg_default = true) by reflexivity.
  split; [exact H | exact (chat_upstream_clean _ _ _ H)].
Defined.

(** X10: /api/chat answers with status 200 only after exactly one
    upstream call that succeeded; the response text is the provider's
    content (the empty text when it has none), redacted when the privacy
    filter is enabled, and the model is the provider's. *)
Theorem chat_ok_one_call (cfg : config) (up : up_req -> upstream_exc + completion)
  (d : option jval) :
  status (snd (chat_completion cfg up d)) = 200 ->
  exists rq resp,
    fst (chat_completion cfg up d) = [rq] /\ up rq = inr resp /\
    body_of (snd (chat_completion cfg up d)) =
      BResponse (if privacy_enabled cfg
                 then Privacy.redact_sensitive_data (default [] (c_content resp))
                 else default [] (c_content resp)) (c_model resp).
Proof.
  intros H200.
  destruct (chat_call_inv cfg up d)
    as [(_ & [H | H] & _) | (kv & vr & rq & res & _ & _ & _ & Ec & He)];
    [congruence | congruence |].
  rewrite He in H200 |- *. unfold client_chat_completion in Ec. injection Ec as Erq Eres.
  destruct res as [[m|m]|resp]; cbn in H200; try discriminate.
  exists rq, resp. split; [reflexivity |]. split; [| reflexivity].
  revert Eres. rewrite <- Erq. destruct (up _) as [e|r]; [destruct e; discriminate |].
  intros [= ->]. reflexivity.
Qed.

Lemma chat_ok_one_call_witness :
  status (snd (chat_completion Samples.cfg_default Samples.up_phone
                 (Some (JDict Samples.body_with_history)))) = 200 /\
  exists rq resp,
    fst (chat_completion Samples.cfg_default Samples.up_phone
           (Some (JDict Samples.body_with_history))) = [rq] /\
    Samples.up_phone rq = inr resp /\
    body_of (snd (chat_completion Samples.cfg_default Samples.up_phone
                    (Some (JDict Samples.body_with_history)))) =
      BResponse (if privacy_enabled Samples.cfg_default
                 then Privacy.redact_sensitive_data (default [] (c_content resp))
                 else default [] (c_content resp)) (c_model resp).
Proof.
  assert (H : status (snd (chat_completion Samples.cfg_default Samples.up_phone
                             (Some (JDict Samples.body_with_history)))) = 200)
    by (vm_compute; reflexivity).
  split; [exact H | exact (chat_ok_one_call _ _ _ H)].
Defined.

Local Ltac pick_text m :=
  exists m; split; [| reflexivity]; unfold chat_error_texts;
  repeat first [apply list_elem_of_here | apply list_elem_of_further].

(** X11: every answer of /api/chat other than 200 has status 400 or 500,
    and its error text is a validation error or one of eight fixed
    texts; the text of an upstream exception is never returned. *)
Theorem chat_errors_fixed (cfg : config) (up : up_req -> upstream_exc + completion)
  (d : option jval) :
  status (snd (chat_completion cfg up d)) = 200 \/
  ((status (snd (chat_completion cfg up d)) = 400 \/
    status (snd (chat_completion cfg up d)) = 500) /\
   ((exists e, body_of (snd (chat_completion cfg up d)) = BError (MsgValidation e)) \/
    (exists m, m ∈ chat_error_texts /\
               body_of (snd (chat_completion cfg up d)) = BError (MsgText (T m))))).
Proof.
  destruct (chat_call_inv cfg up d)
    as [(_ & Hs & Hb) | (kv & vr & rq & res & _ & _ & _ & Ec & He)];
    [right; split; assumption |].
  rewrite He. unfold client_chat_completion in Ec. injection Ec as _ Eres.
  destruct res as [[m|m]|resp]; [right | right | left; reflexivity].
  all: split; [cbn; first [left; reflexivity | right; reflexivity] | right].
  all: revert Eres; destruct (up _) as [[m0|m0|m0|m0]|r]; intros Eq;
    try discriminate Eq; injection Eq as <-.
  all: first [ pick_text "Invalid request format"%string | pick_text "Model not available"%string
             | pick_text "Service temporarily unavailable"%string
             | pick_text "Request failed"%string ].
Qed.

(** the answer the failure mapping prescribes for an upstream exception *)
Definition upstream_failure_answer (e : upstream_exc) : http :=
  match e with
  | BadRequestError _ => err 400 "Invalid request format"
  | NotFoundError _ => err 400 "Model not available"
  | InternalServerError _ => err 500 "Service temporarily unavailable"
  | OtherError _ => err 500 "Request failed"
  end.

(** C2: when the upstream call of /api/chat raises [e], the answer is the
    fixed text of [e]'s kind, whatever the text of [e]: "Invalid request
    format", "Model not available" (both 400), "Service temporarily
    unavailable" or "Request failed" (both 500).  /api/chat/stream makes
    no upstream call at all, for any query and any provider, and its
    only event carries Flask's request-context error, so no upstream text
    reaches its caller either. *)
Theorem upstream_failure_fixed_text (cfg : config) (up : up_req -> upstream_exc + completion)
  (d : option jval) (rq : up_req) (e : upstream_exc)
  (ups : up_req -> upstream_exc + stream) (q : query) :
  fst (chat_completion cfg up d) = [rq] -> up rq = inl e ->
  snd (chat_completion cfg up d) = upstream_failure_answer e /\
  chat_stream cfg ups q = ([], [EvError (MsgText request_context_error)]).
Proof.
  intros Hf Hu. split; [| reflexivity].
  destruct (chat_call_inv cfg up d)
    as [(H0 & _) | (kv & vr & rq' & res & _ & _ & _ & Ec & He)].
  - rewrite H0 in Hf. discriminate.
  - rewrite He in Hf |- *. cbn [fst] in Hf. injection Hf as ->.
    unfold client_chat_completion in Ec. cbv zeta in Ec. injection Ec as Erq Eres.
    rewrite Erq, Hu in Eres. subst res. cbn [snd].
    destruct e; reflexivity.
Qed.

Lemma upstream_failure_fixed_text_witness :
  fst (chat_completion Samples.cfg_default (fun _ => inl (NotFoundError (T "model x: 404")))
         (Some (JDict [("message", JStr (T "hello"))])))
    = [ {| u_model := T "default"; u_messages := [(T "user", T "hello")];
           u_kwargs := []; u_stream := false |} ] /\
  (fun _ : up_req => inl (B := completion) (NotFoundError (T "model x: 404")))
    {| u_model := T "default"; u_messages := [(T "user", T "hello")];
       u_kwargs := []; u_stream := false |} = inl (NotFoundError (T "model x: 404")) /\
  snd (chat_completion Samples.cfg_default (fun _ => inl (NotFoundError (T "model x: 404")))
         (Some (JDict [("message", JStr (T "hello"))])))
    = upstream_failure_answer (NotFoundError (T "model x: 404")) /\
  chat_stream Samples.cfg_default (fun _ => inl (NotFoundError (T "model x: 404")))
    {| q_message := Some (T "hello"); q_model := None |}
    = ([], [EvError (MsgText request_context_error)]).
Proof.
  assert (Hf : fst (chat_completion Samples.cfg_default
                      (fun _ => inl (NotFoundError (T "model x: 404")))
                      (Some (JDict [("message", JStr (T "hello"))])))
               = [ {| u_model := T "default"; u_messages := [(T "user", T "hello")];
                      u_kwargs := []; u_stream := false |} ])
    by (vm_compute; reflexivity).
  split; [exact Hf |]. split; [reflexivity |].
  exact (upstream_failure_fixed_text _ _ _ _ _
           (fun _ => inl (NotFoundError (T "model x: 404"))) _ Hf eq_refl).
Defined.

End ChatFacts.

(** ** DataPrivacyFilter over all texts *)

Module PrivacyFacts.
Import Privacy.

Lemma re_sub_finditer_nil (r : rx) (repl t : list ascii) :
  finditer t r = [] -> re_sub r repl t = t.
Proof.
  unfold finditer, re_sub. cbn [finditer_from sub_from].
  destruct (search t r 0) as [[b e]|]; [discriminate | reflexivity].
Qed.

(** X5: a text in which [detect_sensitive_data] finds nothing is left
    unchanged by [redact_sensitive_data]. *)
Theorem redact_without_findings (t : list ascii) :
  detect_sensitive_data t = [] -> redact_sensitive_data t = t.
Proof.
  unfold detect_sensitive_data, redact_sensitive_data, redact_with.
  generalize patterns. intros ps.
  induction ps as [|[dt pat] ps IH]; cbn [map concat fold_left]; intros H; [reflexivity |].
  apply app_eq_nil in H as [H1 H2]. apply map_eq_nil in H1.
  rewrite re_sub_finditer_nil by exact H1. apply IH, H2.
Qed.

Lemma redact_without_findings_witness :
  detect_sensitive_data (T "hello world") = [] /\
  redact_sensitive_data (T "hello world") = T "hello world".
Proof.
  assert (H : detect_sensitive_data (T "hello world") = []) by (vm_compute; reflexivity).
  split; [exact H | exact (redact_without_findings _ H)].
Defined.

Lemma violations_from (cs : list (list ascii)) :
  forall (f : nat -> list ascii -> list (nat * list string)) (n i : nat) (ks : list string),
  (forall j c, f j c = violation_of (n + j) c) ->
  (i, ks) ∈ concat (imap f cs) <->
  exists j c, i = n + j /\ cs !! j = Some c /\ detect_sensitive_data c <> [] /\
              ks = map fst (detect_sensitive_data c).
Proof.
  induction cs as [|c cs IH]; intros f n i ks Hf.
  - cbn. split; [intros H; apply elem_of_nil in H as [] |].
    intros (j & c & _ & Hj & _). rewrite lookup_nil in Hj. discriminate.
  - rewrite imap_cons. cbn [concat]. rewrite elem_of_app, Hf.
    rewrite (IH (f ∘ S) (S n)) by (intros j c'; unfold compose; rewrite Hf; f_equal; lia).
    unfold violation_of. split.
    + intros [Hin | (j & c' & -> & Hj & Hd & Hk)].
      * destruct (detect_sensitive_data c) as [|x xs] eqn:Ed;
          [apply elem_of_nil in Hin as [] |].
        apply list_elem_of_singleton in Hin. injection Hin as -> ->.
        exists 0, c. split; [lia |]. split; [reflexivity |].
        rewrite Ed. split; [discriminate | reflexivity].
      * exists (S j), c'. split; [lia |]. split; [exact Hj |]. split; [exact Hd | exact Hk].
    + intros ([|j] & c' & -> & Hj & Hd & Hk); cbn in Hj.
      * injection Hj as <-. left.
        destruct (detect_sensitive_data c) as [|x xs] eqn:Ed; [contradiction |].
        apply list_elem_of_singleton. rewrite Hk. reflexivity.
      * right. exists j, c'. split; [lia |]. split; [exact Hj |]. split; [exact Hd | exact Hk].
Qed.

(** X6: [validate_request_privacy] reports the pair [(i, kinds)] exactly
    when message [i] exists and has findings, [kinds] being the kinds of
    its findings in order: one entry per message with findings, none for
    the others. *)
Theorem privacy_violations_exact (cs : list (list ascii)) (i : nat) (ks : list string) :
  (i, ks) ∈ validate_request_privacy cs <->
  exists c, cs !! i = Some c /\ detect_sensitive_data c <> [] /\
            ks = map fst (detect_sensitive_data c).
Proof.
  unfold validate_request_privacy.
  rewrite (violations_from cs violation_of 0 i ks) by reflexivity.
  split.
  - intros (j & c & -> & H). exists c. exact H.
  - intros (c & H). exists i, c. split; [reflexivity | exact H].
Qed.

Lemma run_len_app_all (p : ascii -> bool) (w b : list ascii) :
  Forall (fun c => p c = true) w -> run_len p (w ++ b) = length w + run_len p b.
Proof. induction 1 as [|c w Hc _ IH]; cbn; [reflexivity |]. rewrite Hc, IH. reflexivity. Qed.

Lemma api_key_at (s : list ascii) (i : nat) :
  32 <= run_len is_alnum (drop i s) -> is_Some (match_at s api_key_re i).
Proof.
  intros Hn. unfold match_at, api_key_re. cbn [mt].
  destruct (run_len is_alnum (drop i s) <? 32) eqn:E; [apply Nat.ltb_lt in E; lia |].
  destruct (rev (seq 32 (S (run_len is_alnum (drop i s) - 32)))) as [|x l] eqn:Er.
  - apply (f_equal length) in Er. rewrite length_rev, length_seq in Er. discriminate.
  - cbn. eexists; reflexivity.
Qed.

Lemma search_from_finds (s : list ascii) (r : rx) (j fuel : nat) :
  forall i, i <= j <= i + fuel -> is_Some (match_at s r j) ->
  exists b e, search_from s r i fuel = Some (b, e).
Proof.
  induction fuel as [|f IH]; intros i Hj Hm; cbn [search_from];
    destruct (match_at s r i) as [e|] eqn:E; eauto.
  - replace j with i in Hm by lia. rewrite E in Hm. destruct Hm as [? [=]].
  - destruct (Nat.eq_dec i j) as [-> | Hne]; [rewrite E in Hm; destruct Hm as [? [=]] |].
    apply IH; [lia | exact Hm].
Qed.

(** X7: a text with a run of 32 or more ASCII letters and digits has an
    [api_key] finding, wherever the run stands. *)
Theorem long_alnum_run_detected (t a w b : list ascii) :
  t = a ++ w ++ b -> 32 <= length w -> Forall (fun c => is_alnum c = true) w ->
  exists k, ("api_key"%string, k) ∈ detect_sensitive_data t.
Proof.
  intros Ht Hw Ha.
  assert (Hm : is_Some (match_at t api_key_re (length a))).
  { apply api_key_at. rewrite Ht, drop_app_length, run_len_app_all by exact Ha. lia. }
  assert (Hl : length a <= length t) by (rewrite Ht, length_app; lia).
  destruct (search_from_finds t api_key_re (length a) (length t - 0) 0) as (b0 & e0 & Hs);
    [lia | exact Hm |].
  assert (Hf : finditer t api_key_re
               = (b0, e0) :: finditer_from t api_key_re (if e0 =? b0 then S e0 else e0)
                               (length t)).
  { unfold finditer. cbn [finditer_from]. unfold search. rewrite Hs. reflexivity. }
  exists (slice t b0 e0). unfold detect_sensitive_data, patterns. cbn [map concat].
  rewrite Hf. cbn [map]. rewrite !elem_of_app.
  right; right; right; right; left. left.
Qed.

Lemma long_alnum_run_detected_witness :
  T "key=" ++ T "abcdefghijklmnopqrstuvwxyz012345" ++ T " end"
    = T "key=" ++ T "abcdefghijklmnopqrstuvwxyz012345" ++ T " end" /\
  32 <= length (T "abcdefghijklmnopqrstuvwxyz012345") /\
  Forall (fun c => is_alnum c = true) (T "abcdefghijklmnopqrstuvwxyz012345") /\
  exists k, ("api_key"%string, k) ∈
    detect_sensitive_data (T "key=" ++ T "abcdefghijklmnopqrstuvwxyz012345" ++ T " end").
Proof.
  assert (H1 : 32 <= length (T "abcdefghijklmnopqrstuvwxyz012345")) by (cbn; lia).
  assert (H2 : Forall (fun c => is_alnum c = true) (T "abcdefghijklmnopqrstuvwxyz012345"))
    by (repeat constructor).
  split; [reflexivity |]. split; [exact H1 |]. split; [exact H2 |].
  exact (long_alnum_run_detected _ _ _ _ eq_refl H1 H2).
Defined.

End PrivacyFacts.

(** ** The sliding window of [check_rate_limit] *)

Module WindowFacts.
Import Monitor.

Lemma window_narrow (w n n' : Z) (l : list Z) :
  (n <= n')%Z ->
  filter (fun t => bool_decide (n' - t < w)%Z) (filter (fun t => bool_decide (n - t < w)%Z) l)
  = filter (fun t => bool_decide (n' - t < w)%Z) l.
Proof.
  intros Hn. induction l as [|x l IH]; [reflexivity |].
  destruct (decide (n' - x < w)%Z) as [H1|H1].
  - rewrite (filter_cons_True (fun t => bool_decide (n - t < w)%Z))
      by (apply bool_decide_pack; lia).
    rewrite !filter_cons_True by (apply bool_decide_pack; lia). f_equal; exact IH.
  - rewrite (filter_cons_False (fun t => bool_decide (n' - t < w)%Z) x l)
      by (intros Hb; apply bool_decide_unpack in Hb; lia).
    destruct (decide (n - x < w)%Z) as [H2|H2].
    + rewrite (filter_cons_True (fun t => bool_decide (n - t < w)%Z))
        by (apply bool_decide_pack; lia).
      rewrite filter_cons_False by (intros Hb; apply bool_decide_unpack in Hb; lia).
      exact IH.
    + rewrite filter_cons_False by (intros Hb; apply bool_decide_unpack in Hb; lia).
      exact IH.
Qed.

(** one call: admitted exactly when the pruned list is under the limit;
    the stored list becomes the pruned list, plus the time if admitted *)
Lemma check_step (env : env_int) (st : state) (ip : string) (limit window L now : Z) :
  (if bool_decide (limit = 100%Z) then env_limit env else Some limit) = Some L ->
  exists st',
    check_rate_limit env st ip limit window now
    = Some (bool_decide (Z.of_nat (length (filter (fun t => bool_decide (now - t < window)%Z)
                                            (default [] (rate_limits st !! ip)))) < L)%Z, st') /\
    rate_limits st' !! ip
    = Some (if bool_decide (Z.of_nat (length (filter (fun t => bool_decide (now - t < window)%Z)
                                            (default [] (rate_limits st !! ip)))) < L)%Z
            then filter (fun t => bool_decide (now - t < window)%Z)
                        (default [] (rate_limits st !! ip)) ++ [now]
            else filter (fun t => bool_decide (now - t < window)%Z)
                        (default [] (rate_limits st !! ip))).
Proof.
  intros Hl. unfold check_rate_limit. rewrite Hl. clear Hl. unfold check_with_limit. cbv zeta.
  set (n := Z.of_nat (length (filter (fun t => bool_decide (now - t < window)%Z)
                                      (default [] (rate_limits st !! ip))))).
  destruct (decide (L <= n)%Z) as [Hle|Hle].
  - rewrite (bool_decide_true (L <= n)%Z) by exact Hle.
    rewrite (bool_decide_false (n < L)%Z) by lia.
    eexists; split; [reflexivity | apply lookup_insert_eq].
  - rewrite (bool_decide_false (L <= n)%Z) by exact Hle.
    rewrite (bool_decide_true (n < L)%Z) by lia.
    eexists; split; [reflexivity | apply lookup_insert_eq].
Qed.

Lemma filter_admitted_cons (x : Z) (b : bool) (l : list (Z * bool)) :
  map fst (filter (fun p => p.2 = true) ((x, b) :: l))
  = (if b then [x] else []) ++ map fst (filter (fun p => p.2 = true) l).
Proof.
  destruct b.
  - rewrite filter_cons_True by reflexivity. reflexivity.
  - rewrite filter_cons_False by discriminate. reflexivity.
Qed.

Lemma run_checks_window (env : env_int) (ip : string) (limit window L : Z) :
  (if bool_decide (limit = 100%Z) then env_limit env else Some limit) = Some L ->
  forall (times : list Z) (st : state) (A : list Z) (last : Z),
  (forall now', (last <= now')%Z ->
     filter (fun t => bool_decide (now' - t < window)%Z) (default [] (rate_limits st !! ip))
     = filter (fun t => bool_decide (now' - t < window)%Z) A) ->
  Forall (fun t => (last <= t)%Z) times ->
  StronglySorted Z.le times ->
  length (fst (run_checks env st ip limit window times)) = length times /\
  forall k t, times !! k = Some t ->
    fst (run_checks env st ip limit window times) !! k =
    Some (bool_decide
            (Z.of_nat (length (filter (fun t' => bool_decide (t - t' < window)%Z)
               (A ++ map fst (filter (fun p => p.2 = true)
                  (zip (take k times) (fst (run_checks env st ip limit window times)))))))
             < L)%Z).
Proof.
  intros Hl times. induction times as [|now rest IH]; intros st A last Hinv Hlast Hsort.
  - split; [reflexivity |]. intros k t Hk. rewrite lookup_nil in Hk. discriminate.
  - apply StronglySorted_inv in Hsort as [Hsort Hnow].
    apply Forall_cons in Hlast as [Hln Hlast].
    destruct (check_step env st ip limit window L now Hl) as (st' & Hc & Hst').
    cbn [run_checks]. rewrite Hc.
    remember (bool_decide (Z.of_nat (length (filter (fun t => bool_decide (now - t < window)%Z)
                (default [] (rate_limits st !! ip)))) < L)%Z) as ok eqn:Eok.
    destruct (IH st' (A ++ if ok then [now] else []) now) as [Hlen Hk].
    { intros now' Hn. rewrite Hst'. cbn [default id].
      destruct ok.
      - rewrite !filter_app. f_equal. rewrite window_narrow by exact Hn. apply Hinv. lia.
      - rewrite app_nil_r. rewrite window_narrow by exact Hn. apply Hinv. lia. }
    { exact Hnow. }
    { exact Hsort. }
    destruct (run_checks env st' ip limit window rest) as [oks st''] eqn:Er. cbn [fst] in *.
    split; [cbn; f_equal; exact Hlen |].
    intros [|k] t Hkt.
    + cbn in Hkt. injection Hkt as <-. cbn [take zip zip_with lookup list_lookup].
      rewrite Eok, Hinv by lia. cbn. rewrite app_nil_r. reflexivity.
    + change ((now :: rest) !! S k) with (rest !! k) in Hkt.
      change ((ok :: oks) !! S k) with (oks !! k). rewrite (Hk k t Hkt).
      cbn [take zip zip_with]. rewrite filter_admitted_cons, app_assoc. reflexivity.
Qed.

(** X13: for calls of one client at nondecreasing times, starting with no
    stored timestamps, [check_rate_limit] with the effective limit [L]
    answers every call, and admits the call at time [t] exactly when fewer
    than [L] of the calls admitted before it lie within the window, i.e.
    at a time [t'] with [t - t' < window]. *)
Theorem sliding_window_exact (env : env_int) (st : state) (ip : string)
  (limit window L : Z) (times : list Z) :
  (if bool_decide (limit = 100%Z) then env_limit env else Some limit) = Some L ->
  default [] (rate_limits st !! ip) = [] ->
  Sorted Z.le times ->
  length (fst (run_checks env st ip limit window times)) = length times /\
  forall k t, times !! k = Some t ->
    fst (run_checks env st ip limit window times) !! k =
    Some (bool_decide
            (Z.of_nat (length (filter (fun t' => bool_decide (t - t' < window)%Z)
               (map fst (filter (fun p => p.2 = true)
                  (zip (take k times) (fst (run_checks env st ip limit window times)))))))
             < L)%Z).
Proof.
  intros Hl H0 Hs.
  apply Sorted_StronglySorted in Hs; [| intros x y z; lia].
  destruct times as [|t0 ts].
  - split; [reflexivity |]. intros k t Hk. rewrite lookup_nil in Hk. discriminate.
  - apply (run_checks_window env ip limit window L Hl (t0 :: ts) st [] t0).
    + intros now' _. rewrite H0. reflexivity.
    + constructor; [lia |]. apply StronglySorted_inv in Hs as [_ Hf]. exact Hf.
    + exact Hs.
Qed.

Lemma sliding_window_exact_witness :
  (if bool_decide (2 = 100)%Z then env_limit EnvUnset else Some 2%Z) = Some 2%Z /\
  default [] (rate_limits fresh !! "10.0.0.1") = [] /\
  Sorted Z.le [0; 10; 20; 70]%Z /\
  fst (run_checks EnvUnset fresh "10.0.0.1" 2 60 [0; 10; 20; 70]%Z)
    = [true; true; false; true] /\
  (length (fst (run_checks EnvUnset fresh "10.0.0.1" 2 60 [0; 10; 20; 70]%Z))
     = length [0; 10; 20; 70]%Z /\
   forall k t, [0; 10; 20; 70]%Z !! k = Some t ->
    fst (run_checks EnvUnset fresh "10.0.0.1" 2 60 [0; 10; 20; 70]%Z) !! k =
    Some (bool_decide
            (Z.of_nat (length (filter (fun t' => bool_decide (t - t' < 60)%Z)
               (map fst (filter (fun p => p.2 = true)
                  (zip (take k [0; 10; 20; 70]%Z)
                       (fst (run_checks EnvUnset fresh "10.0.0.1" 2 60 [0; 10; 20; 70]%Z)))))))
             < 2)%Z)).
Proof.
  assert (H1 : (if bool_decide (2 = 100)%Z then env_limit EnvUnset else Some 2%Z) = Some 2%Z)
    by reflexivity.
  assert (H2 : default [] (rate_limits fresh !! "10.0.0.1") = []) by reflexivity.
  assert (H3 : Sorted Z.le [0; 10; 20; 70]%Z) by (repeat constructor; lia).
  split; [exact H1 |]. split; [exact H2 |]. split; [exact H3 |].
  split; [vm_compute; reflexivity |].
  exact (sliding_window_exact EnvUnset fresh "10.0.0.1" 2 60 2 _ H1 H2 H3).
Defined.

End WindowFacts.

(** ** The request hook over successive requests *)

Module GateFacts.
Import Monitor Gate.

Lemma sc_blocked (env : env_int) (st : state) (x : option string) (ra : string) (now : Z) :
  client_ip x ra ∈ blocked_ips st ->
  security_checks env st x ra now = (Refuse 403 "Access denied", st).
Proof.
  intros H. unfold security_checks, is_blocked. cbv zeta.
  rewrite bool_decide_true by exact H. reflexivity.
Qed.

(** the hook's effect on the entries of another address *)
Lemma sc_other (env : env_int) (st : state) (x : option string) (ra : string) (now : Z)
  (c : string) :
  client_ip x ra <> c ->
  rate_limits (snd (security_checks env st x ra now)) !! c = rate_limits st !! c /\
  (c ∈ blocked_ips (snd (security_checks env st x ra now)) <-> c ∈ blocked_ips st).
Proof.
  intros Hc. unfold security_checks, is_blocked, check_rate_limit, check_with_limit. cbv zeta.
  destruct (bool_decide (client_ip x ra ∈ blocked_ips st)); [split; reflexivity |].
  rewrite (bool_decide_true (100 = 100)%Z) by reflexivity.
  destruct (env_limit env) as [L|]; [| split; reflexivity].
  destruct (bool_decide (L <= _)%Z); cbn; split;
    [rewrite !lookup_insert_ne by congruence; reflexivity | set_solver
    |rewrite !lookup_insert_ne by congruence; reflexivity | set_solver].
Qed.

(** on its own address, the hook's outcome and effect depend only on that
    address's entries *)
Lemma sc_same (env : env_int) (st st' : state) (x : option string) (ra : string) (now : Z) :
  rate_limits st !! client_ip x ra = rate_limits st' !! client_ip x ra ->
  (client_ip x ra ∈ blocked_ips st <-> client_ip x ra ∈ blocked_ips st') ->
  fst (security_checks env st x ra now) = fst (security_checks env st' x ra now) /\
  rate_limits (snd (security_checks env st x ra now)) !! client_ip x ra
  = rate_limits (snd (security_checks env st' x ra now)) !! client_ip x ra /\
  (client_ip x ra ∈ blocked_ips (snd (security_checks env st x ra now))
   <-> client_ip x ra ∈ blocked_ips (snd (security_checks env st' x ra now))).
Proof.
  intros Hl Hb. unfold security_checks, is_blocked, check_rate_limit, check_with_limit.
  cbv zeta. rewrite (bool_decide_ext _ _ Hb).
  destruct (bool_decide (client_ip x ra ∈ blocked_ips st')); [split; [reflexivity | tauto] |].
  rewrite (bool_decide_true (100 = 100)%Z) by reflexivity.
  destruct (env_limit env) as [L|]; [| split; [reflexivity | tauto]].
  rewrite Hl.
  destruct (bool_decide (L <= _)%Z); cbn; (split; [reflexivity |]); split;
    [rewrite !lookup_insert_eq; reflexivity | set_solver
    |rewrite !lookup_insert_eq; reflexivity | set_solver].
Qed.

Lemma serve_cons (env : env_int) (st : state) (r : request) (rest : list request) :
  fst (serve env st (r :: rest))
  = fst (security_checks env st (x_real_ip r) (remote_addr r) (at_time r))
    :: fst (serve env (snd (security_checks env st (x_real_ip r) (remote_addr r) (at_time r))) rest).
Proof.
  cbn [serve]. destruct (security_checks _ _ _ _ _) as [o st1].
  destruct (serve env st1 rest) as [os st2] eqn:E. cbn. rewrite E. reflexivity.
Qed.

Lemma serve_state_cons (env : env_int) (st : state) (r : request) (rest : list request) :
  snd (serve env st (r :: rest))
  = snd (serve env (snd (security_checks env st (x_real_ip r) (remote_addr r) (at_time r))) rest).
Proof.
  cbn [serve]. destruct (security_checks _ _ _ _ _) as [o st1].
  destruct (serve env st1 rest) as [os st2] eqn:E. cbn. rewrite E. reflexivity.
Qed.

Lemma serve_length (env : env_int) (reqs : list request) (st : state) :
  length (fst (serve env st reqs)) = length reqs.
Proof.
  revert st. induction reqs as [|r rest IH]; intros st; [reflexivity |].
  rewrite serve_cons. cbn. f_equal. apply IH.
Qed.

Lemma serve_isolated (env : env_int) (c : string) (reqs : list request) :
  forall st st',
  rate_limits st !! c = rate_limits st' !! c ->
  (c ∈ blocked_ips st <-> c ∈ blocked_ips st') ->
  map snd (filter (fun p => req_ip p.1 = c) (zip reqs (fst (serve env st reqs))))
  = fst (serve env st' (filter (fun r => req_ip r = c) reqs)).
Proof.
  induction reqs as [|r rest IH]; intros st st' Hl Hb; [reflexivity |].
  rewrite serve_cons. cbn [zip zip_with].
  destruct (decide (req_ip r = c)) as [Hc|Hc].
  - rewrite filter_cons_True by exact Hc. rewrite (filter_cons_True _ r) by exact Hc.
    rewrite serve_cons. unfold req_ip in Hc. subst c.
    destruct (sc_same env st st' (x_real_ip r) (remote_addr r) (at_time r) Hl Hb)
      as (Ho & Hl' & Hb').
    cbn [map fst snd]. rewrite Ho. f_equal. apply IH; assumption.
  - rewrite filter_cons_False by exact Hc. rewrite (filter_cons_False _ r) by exact Hc.
    destruct (sc_other env st (x_real_ip r) (remote_addr r) (at_time r) c Hc) as [Hl' Hb'].
    apply IH; [rewrite Hl'; exact Hl | rewrite Hb'; exact Hb].
Qed.

Lemma serve_blocked (env : env_int) (ip : string) (reqs : list request) :
  forall st j r,
  ip ∈ blocked_ips st ->
  reqs !! j = Some r -> req_ip r = ip ->
  fst (serve env st reqs) !! j = Some (Refuse 403 "Access denied").
Proof.
  induction reqs as [|r0 rest IH]; intros st j r Hb Hj Hr; [rewrite lookup_nil in Hj; discriminate |].
  rewrite serve_cons. destruct j as [|j].
  - injection Hj as <-. unfold req_ip in Hr. subst ip.
    rewrite (sc_blocked env st _ _ _ Hb). reflexivity.
  - apply (IH _ j r); [| exact Hj | exact Hr].
    destruct (decide (req_ip r0 = ip)) as [Hc|Hc].
    + rewrite <- Hc in Hb |- *. unfold req_ip in Hb |- *.
      rewrite (sc_blocked env st _ _ _ Hb). exact Hb.
    + destruct (sc_other env st (x_real_ip r0) (remote_addr r0) (at_time r0) ip Hc) as [_ Hb'].
      apply Hb'. exact Hb.
Qed.

Lemma sc_refuse_blocks (env : env_int) (st : state) (x : option string) (ra : string)
  (now : Z) (code : nat) (m : string) :
  fst (security_checks env st x ra now) = Refuse code m ->
  client_ip x ra ∈ blocked_ips (snd (security_checks env st x ra now)).
Proof.
  unfold security_checks, is_blocked, check_rate_limit, check_with_limit. cbv zeta.
  destruct (bool_decide (client_ip x ra ∈ blocked_ips st)) eqn:Eb.
  - intros _. apply bool_decide_eq_true in Eb. exact Eb.
  - rewrite (bool_decide_true (100 = 100)%Z) by reflexivity.
    destruct (env_limit env) as [L|]; [| discriminate].
    destruct (bool_decide (L <= _)%Z); cbn; [intros _; set_solver | discriminate].
Qed.

Lemma sc_keeps_blocked (env : env_int) (st : state) (x : option string) (ra : string)
  (now : Z) (c : string) :
  c ∈ blocked_ips st -> c ∈ blocked_ips (snd (security_checks env st x ra now)).
Proof.
  intros H. destruct (decide (client_ip x ra = c)) as [Hc|Hc].
  - subst c. rewrite (sc_blocked env st x ra now H). exact H.
  - apply (sc_other env st x ra now c Hc). exact H.
Qed.

Lemma serve_keeps_blocked (env : env_int) (c : string) (reqs : list request) :
  forall st, c ∈ blocked_ips st -> c ∈ blocked_ips (snd (serve env st reqs)).
Proof.
  induction reqs as [|r rest IH]; intros st H; [exact H |].
  rewrite serve_state_cons. apply IH. apply sc_keeps_blocked. exact H.
Qed.

(** X14: once the hook refuses a request (403 or 429), every later request
    keyed by the same address is refused with 403 "Access denied". *)
Theorem refusal_is_final (env : env_int) (reqs : list request) (st : state)
  (k j : nat) (rk rj : request) (code : nat) (m : string) :
  k < j -> reqs !! k = Some rk -> reqs !! j = Some rj -> req_ip rj = req_ip rk ->
  fst (serve env st reqs) !! k = Some (Refuse code m) ->
  fst (serve env st reqs) !! j = Some (Refuse 403 "Access denied").
Proof.
  revert st k j. induction reqs as [|r rest IH]; intros st k j Hkj Hk Hj Hip Ho;
    [rewrite lookup_nil in Hk; discriminate |].
  rewrite serve_cons in Ho |- *. destruct j as [|j]; [lia |].
  cbn [lookup list_lookup] in Hj |- *.
  destruct k as [|k].
  - injection Hk as <-. injection Ho as Ho.
    apply (serve_blocked env (req_ip r) rest _ j rj); [| exact Hj | exact Hip].
    exact (sc_refuse_blocks env st _ _ _ code m Ho).
  - apply (IH _ k j); [lia | exact Hk | exact Hj | exact Hip | exact Ho].
Qed.

Lemma refusal_is_final_witness :
  1 < 2 /\ Samples.burst !! 1 = Some (Samples.burst_req 1) /\
  Samples.burst !! 2 = Some (Samples.burst_req 2) /\
  req_ip (Samples.burst_req 2) = req_ip (Samples.burst_req 1) /\
  fst (serve (EnvInt 1) fresh Samples.burst) !! 1 = Some (Refuse 429 "Rate limit exceeded") /\
  fst (serve (EnvInt 1) fresh Samples.burst) !! 2 = Some (Refuse 403 "Access denied").
Proof.
  assert (H1 : 1 < 2) by lia.
  assert (H2 : Samples.burst !! 1 = Some (Samples.burst_req 1)) by reflexivity.
  assert (H3 : Samples.burst !! 2 = Some (Samples.burst_req 2)) by reflexivity.
  assert (H4 : req_ip (Samples.burst_req 2) = req_ip (Samples.burst_req 1)) by reflexivity.
  assert (H5 : fst (serve (EnvInt 1) fresh Samples.burst) !! 1
               = Some (Refuse 429 "Rate limit exceeded")) by (vm_compute; reflexivity).
  split; [exact H1 |]. split; [exact H2 |]. split; [exact H3 |]. split; [exact H4 |].
  split; [exact H5 |].
  exact (refusal_is_final (EnvInt 1) Samples.burst fresh 1 2 _ _ 429 "Rate limit exceeded"
           H1 H2 H3 H4 H5).
Defined.

(** X15: the hook keys each request independently: the outcomes of the
    requests keyed by one address are those the hook gives when it sees only
    that address's requests. *)
Theorem serve_per_client (env : env_int) (st : state) (reqs : list request) (c : string) :
  map snd (filter (fun p => req_ip p.1 = c) (zip reqs (fst (serve env st reqs))))
  = fst (serve env st (filter (fun r => req_ip r = c) reqs)).
Proof. apply serve_isolated; [reflexivity | tauto]. Qed.

Lemma sc_invalid (st : state) (x : option string) (ra : string) (now : Z) :
  security_checks EnvInvalid st x ra now
  = (if is_blocked st (client_ip x ra) then Refuse 403 "Access denied" else Crash, st).
Proof.
  unfold security_checks. cbv zeta. destruct (is_blocked st (client_ip x ra)); reflexivity.
Qed.

(** X16: when RATE_LIMIT_PER_HOUR is not an integer, the hook answers every
    request from an address not yet blocked with a crash (HTTP 500), the
    blocked ones with 403, and never changes the monitor's state. *)
Theorem invalid_env_crashes (st : state) (reqs : list request) :
  serve EnvInvalid st reqs
  = (map (fun r => if is_blocked st (req_ip r) then Refuse 403 "Access denied" else Crash) reqs,
     st).
Proof.
  induction reqs as [|r rest IH]; [reflexivity |].
  cbn [serve]. rewrite sc_invalid. cbv beta iota. rewrite IH. reflexivity.
Qed.

Lemma sc_fresh (env : env_int) (L : Z) (st : state) (h ra : string) (now : Z) :
  env_limit env = Some L -> (0 < L)%Z ->
  h ∉ blocked_ips st -> rate_limits st !! h = None ->
  security_checks env st (Some h) ra now
  = (Proceed, {| rate_limits := <[h := [now]]> (rate_limits st); blocked_ips := blocked_ips st |}).
Proof.
  intros He HL Hb Hn.
  unfold security_checks, is_blocked, check_rate_limit, check_with_limit. cbv zeta.
  cbn [client_ip]. rewrite (bool_decide_false (h ∈ blocked_ips st)) by exact Hb.
  rewrite (bool_decide_true (100 = 100)%Z) by reflexivity. rewrite He, Hn. cbn [default].
  rewrite filter_nil. rewrite (bool_decide_false (L <= Z.of_nat (length []))%Z) by (cbn; lia).
  cbn [blocked_ips rate_limits app]. rewrite insert_insert_eq. reflexivity.
Qed.

(** X17: the hook keys requests by the client-supplied X-Real-IP header:
    with a positive effective limit, requests that each carry a different
    header value, not blocked and without stored timestamps, all proceed,
    whatever their remote address (even a blocked one) and however many
    they are. *)
Theorem rotating_real_ip_passes (env : env_int) (L : Z) (st : state) (reqs : list request) :
  env_limit env = Some L -> (0 < L)%Z ->
  NoDup (map x_real_ip reqs) ->
  Forall (fun r => exists h, x_real_ip r = Some h /\ ((h ∉ blocked_ips st) /\
                             rate_limits st !! h = None)) reqs ->
  Forall (fun o => o = Proceed) (fst (serve env st reqs)).
Proof.
  intros He HL. revert st. induction reqs as [|r rest IH]; intros st Hnd Hf; [constructor |].
  apply NoDup_cons in Hnd as [Hnd1 Hnd2]. apply Forall_cons in Hf as [(h & Hx & Hb & Hn) Hf].
  rewrite serve_cons. destruct r as [x ra now]. cbn [x_real_ip remote_addr at_time] in *.
  subst x. rewrite (sc_fresh env L st h ra now He HL Hb Hn). constructor; [reflexivity |].
  apply IH; [exact Hnd2 |]. apply Forall_forall. intros r' Hr'.
  destruct (proj1 (Forall_forall _ _) Hf r' Hr') as (h' & Hx' & Hb' & Hn').
  exists h'. split; [exact Hx' |]. split; [exact Hb' |].
  change (<[h:=[now]]> (rate_limits st) !! h' = None).
  rewrite lookup_insert_ne; [exact Hn' |]. intros <-. apply Hnd1, list_elem_of_In.
  rewrite <- Hx'. apply in_map, list_elem_of_In. exact Hr'.
Qed.

Lemma rotating_real_ip_passes_witness :
  env_limit EnvUnset = Some 100%Z /\ (0 < 100)%Z /\
  NoDup (map x_real_ip Samples.rotating) /\
  Forall (fun r => exists h, x_real_ip r = Some h /\ ((h ∉ blocked_ips Samples.blocked_home) /\
                             rate_limits Samples.blocked_home !! h = None)) Samples.rotating /\
  is_blocked Samples.blocked_home "6.6.6.6" = true /\
  Forall (fun o => o = Proceed) (fst (serve EnvUnset Samples.blocked_home Samples.rotating)).
Proof.
  assert (H1 : env_limit EnvUnset = Some 100%Z) by reflexivity.
  assert (H2 : (0 < 100)%Z) by lia.
  assert (H3 : NoDup (map x_real_ip Samples.rotating))
    by (cbn; repeat constructor; set_solver).
  assert (H4 : Forall (fun r => exists h, x_real_ip r = Some h /\
                 (h ∉ blocked_ips Samples.blocked_home) /\
                 rate_limits Samples.blocked_home !! h = None) Samples.rotating).
  { repeat constructor; eexists; (split; [reflexivity |]);
      (split; [unfold Samples.blocked_home, block_ip; cbn; set_solver | reflexivity]). }
  split; [exact H1 |]. split; [exact H2 |]. split; [exact H3 |]. split; [exact H4 |].
  split; [vm_compute; reflexivity |].
  exact (rotating_real_ip_passes EnvUnset 100 Samples.blocked_home Samples.rotating H1 H2 H3 H4).
Defined.

Lemma sc_nonpositive (z : Z) (st : state) (x : option string) (ra : string) (now : Z) :
  (z <= 0)%Z ->
  fst (security_checks (EnvInt z) st x ra now) = Refuse 429 "Rate limit exceeded" \/
  fst (security_checks (EnvInt z) st x ra now) = Refuse 403 "Access denied".
Proof.
  intros Hz. unfold security_checks, is_blocked, check_rate_limit, check_with_limit. cbv zeta.
  destruct (bool_decide (client_ip x ra ∈ blocked_ips st)); [right; reflexivity |].
  rewrite (bool_decide_true (100 = 100)%Z) by reflexivity. cbn [env_limit].
  case_bool_decide; [left; reflexivity | lia].
Qed.

(** X18: with RATE_LIMIT_PER_HOUR set to zero or a negative integer, no
    request ever passes the hook: each one is refused with 429 or 403. *)
Theorem nonpositive_limit_refuses_all (z : Z) (st : state) (reqs : list request) :
  (z <= 0)%Z ->
  Forall (fun o => o = Refuse 429 "Rate limit exceeded" \/ o = Refuse 403 "Access denied")
    (fst (serve (EnvInt z) st reqs)).
Proof.
  intros Hz. revert st. induction reqs as [|r rest IH]; intros st; [constructor |].
  rewrite serve_cons. constructor; [apply sc_nonpositive; exact Hz | apply IH].
Qed.

Lemma nonpositive_limit_refuses_all_witness :
  (0 <= 0)%Z /\
  Forall (fun o => o = Refuse 429 "Rate limit exceeded" \/ o = Refuse 403 "Access denied")
    (fst (serve (EnvInt 0) fresh Samples.burst)).
Proof.
  assert (H : (0 <= 0)%Z) by lia.
  split; [exact H | exact (nonpositive_limit_refuses_all 0 fresh Samples.burst H)].
Defined.

Lemma sc_bounded (env : env_int) (L : Z) (st : state) (x : option string) (ra : string) (now : Z) :
  env_limit env = Some L ->
  map_Forall (fun _ l => length l <= Z.to_nat L) (rate_limits st) ->
  map_Forall (fun _ l => length l <= Z.to_nat L)
    (rate_limits (snd (security_checks env st x ra now))).
Proof.
  intros He H. unfold security_checks, is_blocked, check_rate_limit, check_with_limit. cbv zeta.
  destruct (bool_decide (client_ip x ra ∈ blocked_ips st)); [exact H |].
  rewrite (bool_decide_true (100 = 100)%Z) by reflexivity. rewrite He.
  set (old := default [] (rate_limits st !! client_ip x ra)).
  assert (Hold : length old <= Z.to_nat L).
  { unfold old. destruct (rate_limits st !! client_ip x ra) eqn:E; cbn [default];
      [exact (H _ _ E) | cbn; lia]. }
  match goal with |- context [filter ?P old] => pose proof (length_filter P old) as Hf end.
  case_bool_decide as Hc; cbn [snd rate_limits block_ip].
  - apply map_Forall_insert_2; [lia | exact H].
  - apply map_Forall_insert_2; [rewrite length_app; cbn [length]; lia |].
    apply map_Forall_insert_2; [lia | exact H].
Qed.

(** X19: the monitor stores at most as many timestamps per address as the
    effective limit allows: the bound holds after any sequence of requests
    if it held before. *)
Theorem stored_times_bounded (env : env_int) (L : Z) (st : state) (reqs : list request) :
  env_limit env = Some L ->
  map_Forall (fun _ l => length l <= Z.to_nat L) (rate_limits st) ->
  map_Forall (fun _ l => length l <= Z.to_nat L) (rate_limits (snd (serve env st reqs))).
Proof.
  intros He. revert st. induction reqs as [|r rest IH]; intros st H; [exact H |].
  rewrite serve_state_cons. apply IH. apply sc_bounded; assumption.
Qed.

Lemma stored_times_bounded_witness :
  env_limit (EnvInt 2) = Some 2%Z /\
  map_Forall (fun _ l => length l <= Z.to_nat 2) (rate_limits fresh) /\
  map_Forall (fun _ l => length l <= Z.to_nat 2)
    (rate_limits (snd (serve (EnvInt 2) fresh Samples.burst))).
Proof.
  assert (H1 : env_limit (EnvInt 2) = Some 2%Z) by reflexivity.
  assert (H2 : map_Forall (fun _ l => length l <= Z.to_nat 2) (rate_limits fresh))
    by apply map_Forall_empty.
  split; [exact H1 |]. split; [exact H2 |].
  exact (stored_times_bounded (EnvInt 2) 2 fresh Samples.burst H1 H2).
Defined.

End GateFacts.

(** ** The health check as the front end reads it *)

Module HealthFacts.
Import Orchestrator Health UI.

(** X20: whenever /api/health answers (status 200, body built by
    [health_check]), the front end's [get_backend_status] reports
    "healthy", whatever the provider answers: also when the body says
    [gaianet_status] "error" or "not_configured". *)
Theorem sidebar_status_healthy (cfg : config) (up : up_req -> upstream_exc + completion)
  (ct : option (list ascii)) :
  get_backend_status (TResponse {| status_code := 200; content_type := ct;
                                   json_body := JDict (snd (health_check cfg up)) |})
  = Some (JStr (T "healthy")).
Proof.
  unfold health_check. destruct (configured cfg); [destruct (up _) |]; reflexivity.
Qed.

End HealthFacts.

(** ** The retry loop of the front end *)

Module RetryFacts.
Import UI.

Local Ltac attempts_done E0 E1 E2 :=
  split; [unfold MAX_RETRIES; lia |];
  split; [reflexivity |];
  split; [intros a Ha; destruct a as [|[|a]]; first [exact E0 | exact E1 | lia] |];
  cbn [Nat.sub]; (split; [rewrite ?E0, ?E1, ?E2; reflexivity |]);
  intros Ht; rewrite ?E0, ?E1, ?E2 in Ht; first [reflexivity | discriminate].

(** X21: [call_chat_api] makes one to three attempts, 0, 1, ..., n-1; every
    attempt but the last timed out; the result is that of the last attempt
    (the handled response, or the timeout, connection or request error); a
    timeout ends the loop only at the third attempt, so the final
    "max_retries" return is never reached. *)
Theorem call_chat_api_attempts (post : nat -> transport) :
  exists n, 1 <= n <= MAX_RETRIES /\
    fst (call_chat_api post) = seq 0 n /\
    (forall a, a < n - 1 -> post a = TTimeout) /\
    snd (call_chat_api post) =
      match post (n - 1) with
      | TResponse r => handle_api_response r
      | TTimeout => Some (err_dict "timeout" "Request timed out")
      | TConnectionError => Some (err_dict "connection" "Backend connection failed")
      | TRequestError m => Some (JDict [("error", JStr (T "request")); ("message", JStr m)])
      end /\
    (post (n - 1) = TTimeout -> n = MAX_RETRIES).
Proof.
  unfold call_chat_api. cbn [call_chat_from MAX_RETRIES Nat.eqb Nat.sub].
  destruct (post 0) as [| | m0 | r0] eqn:E0;
    [destruct (post 1) as [| | m1 | r1] eqn:E1;
       [destruct (post 2) as [| | m2 | r2] eqn:E2 | | |] | | |].
  all: first [ exists 1; attempts_done E0 E0 E0
             | exists 2; attempts_done E0 E1 E1
             | exists 3; attempts_done E0 E1 E2 ].
Qed.

End RetryFacts.
